(** * A private star-registry blockchain: [src/blockchain.js]

    Shallow embedding of the [Blockchain] class and proofs about its append
    path, its validator, its lookups and its ownership-proof workflow.

    Conventions.
    - A JavaScript string is a [string]; each [ascii] stands for one UTF-16
      code unit in the range 0..255.
    - JavaScript numbers that the class handles are integers (clock readings,
      heights, parsed timestamps); they are modelled by [Z], and [NaN] by
      [None] in an [option Z].  The only arithmetic the class performs on them
      is one subtraction followed by a comparison with 300; for a clock reading
      below 2^53 that comparison gives the same answer on doubles and on
      exact integers.
    - [null] / [undefined] fields are [None] in an [option]. *)

From Stdlib Require Import ZArith Lia Ascii String List Bool.
From stdpp Require Import base list strings pretty.
Import ListNotations.

Local Open Scope Z_scope.

(** ** The JavaScript built-ins the class calls *)

Module JS.

(** Code unit of a character. *)
Definition code (c : ascii) : Z := Z.of_N (N_of_ascii c).

(** ["..."] delimiter, used inside message templates. *)
Definition dquote : string := String (ascii_of_N 34) EmptyString.

(** [String.prototype.split(sep)] for a one-character separator. *)
Fixpoint split (sep : ascii) (s : string) : list string :=
  match s with
  | EmptyString => [EmptyString]
  | String c rest =>
      if Ascii.eqb c sep then EmptyString :: split sep rest
      else match split sep rest with
           | piece :: pieces => String c piece :: pieces
           | [] => [String c EmptyString]
           end
  end.

(** [s.slice(0, -k)]: everything but the last [k] code units. *)
Definition slice_0_neg (k : nat) (s : string) : string :=
  String.substring 0 (String.length s - k) s.

(** [Number.prototype.toString()] on an integer (below 1e21 in magnitude,
    where JavaScript prints plain decimal digits). *)
Definition toString (n : Z) : string := pretty n.

(** [StrWhiteSpaceChar], restricted to code units below 256. *)
Definition is_white_space (c : ascii) : bool :=
  let n := code c in
  (n =? 9) || (n =? 10) || (n =? 11) || (n =? 12) || (n =? 13)
  || (n =? 32) || (n =? 160).

Fixpoint trim_start (s : string) : string :=
  match s with
  | EmptyString => EmptyString
  | String c rest => if is_white_space c then trim_start rest else s
  end.

(** Value of a character as a digit in some radix up to 36. *)
Definition digit_value (c : ascii) : option Z :=
  let n := code c in
  if (48 <=? n) && (n <=? 57) then Some (n - 48)
  else if (97 <=? n) && (n <=? 122) then Some (n - 87)
  else if (65 <=? n) && (n <=? 90) then Some (n - 55)
  else None.

(** Longest prefix of radix-[radix] digits, read as a number; [acc] is the
    value read so far ([None] while no digit has been seen). *)
Fixpoint parse_digits (radix : Z) (acc : option Z) (s : string) : option Z :=
  match s with
  | EmptyString => acc
  | String c rest =>
      match digit_value c with
      | Some d =>
          if d <? radix
          then parse_digits radix
                 (Some (match acc with Some a => a * radix + d | None => d end))
                 rest
          else acc
      | None => acc
      end
  end.

(** [parseInt(s)] with no radix argument: leading white space, an optional
    sign, an optional [0x]/[0X] prefix, then digits.  [None] is [NaN]. *)
Definition parseInt (s : string) : option Z :=
  let s1 := trim_start s in
  let '(sign, s2) :=
    match s1 with
    | String c rest =>
        if code c =? 45 then (-1, rest)
        else if code c =? 43 then (1, rest)
        else (1, s1)
    | EmptyString => (1, s1)
    end in
  let '(radix, s3) :=
    match s2 with
    | String c0 (String c1 rest) =>
        if (code c0 =? 48) && ((code c1 =? 120) || (code c1 =? 88))
        then (16, rest) else (10, s2)
    | _ => (10, s2)
    end in
  match parse_digits radix None s3 with
  | Some n => Some (sign * n)
  | None => None
  end.

(** [parseInt(v)] where [v] may be [undefined]: the argument is first
    converted to a string. *)
Definition parseInt_value (v : option string) : option Z :=
  match v with
  | Some s => parseInt s
  | None => parseInt "undefined"
  end.

(** [a - b] and [a > b] on numbers that may be [NaN]. *)
Definition sub (a b : option Z) : option Z :=
  match a, b with
  | Some x, Some y => Some (x - y)
  | _, _ => None
  end.

Definition gt (a : option Z) (b : Z) : bool :=
  match a with
  | Some x => b <? x
  | None => false
  end.

(** Truthiness of a value that is [undefined], [null] or a string. *)
Definition truthy_string (v : option string) : bool :=
  match v with
  | Some EmptyString => false
  | Some _ => true
  | None => false
  end.

(** Template interpolation [${v}] of a value that is [null] or a string. *)
Definition interpolate (v : option string) : string :=
  match v with
  | Some s => s
  | None => "null"
  end.

(** Decimal digits, and strings made of them only. *)
Definition is_decimal (c : ascii) : Prop := 48 <= code c <= 57.

Fixpoint all_decimal (s : string) : Prop :=
  match s with
  | EmptyString => True
  | String c rest => is_decimal c /\ all_decimal rest
  end.

(** [new Date().getTime().toString().slice(0, -3)] for a clock that reads
    [now] milliseconds. *)
Definition seconds_string (now : Z) : string :=
  slice_0_neg 3 (toString now).

End JS.

(** ** Promises and exceptions *)

(** What a promise is rejected with: an [Error] object carrying a message, or
    a bare string (as [getBlockByHash] does). *)
Inductive exn : Type :=
| Error (message : string)
| Thrown (value : string).

Inductive outcome (A : Type) : Type :=
| Resolve (a : A)
| Reject (e : exn).
Arguments Resolve {A} a.
Arguments Reject {A} e.

(** [String(e)], as [Error(e)] computes it for its message. *)
Definition exn_toString (e : exn) : string :=
  match e with
  | Error EmptyString => "Error"
  | Error m => "Error: " +:+ m
  | Thrown v => v
  end.

Definition rejected {A} (o : outcome A) : bool :=
  match o with
  | Resolve _ => false
  | Reject _ => true
  end.

(** ** [block.js] *)

Module BlockClass.

(** Modelled from the spec: the [Block] class of [block.js], which is not
    among the sources.  A block carries [hash], [height], [body] (the payload
    in its encoded form), [time] and [previousBlockHash]; [null] is [None]. *)
Record Block : Type := mkBlock {
  hash : option string;
  height : Z;
  body : string;
  time : string;
  previousBlockHash : option string
}.

(** The two payload shapes the chain stores: [{ data }] for the genesis
    block and [{ star, address }] for a star block. *)
Inductive BData (Star : Type) : Type :=
| GenesisData (data : string)
| StarData (star : Star) (address : string).
Arguments GenesisData {Star} data.
Arguments StarData {Star} star address.

(** The external collaborators: [crypto-js/sha256], [JSON.stringify] on a
    block object, the hex codec of a block body, the truthiness of a star
    payload and [bitcoinjs-message]'s [verify] (which may itself throw). *)
Class Externals : Type := {
  Star : Type;
  star_truthy : Star -> bool;
  SHA256 : string -> string;
  JSON_stringify : Block -> string;
  encode_body : BData Star -> string;
  decode_body : string -> option (BData Star);
  bitcoinMessage_verify : string -> string -> string -> outcome bool
}.

Definition set_hash (b : Block) (h : option string) : Block :=
  mkBlock h (height b) (body b) (time b) (previousBlockHash b).
Definition set_height (b : Block) (n : Z) : Block :=
  mkBlock (hash b) n (body b) (time b) (previousBlockHash b).
Definition set_body (b : Block) (d : string) : Block :=
  mkBlock (hash b) (height b) d (time b) (previousBlockHash b).
Definition set_time (b : Block) (t : string) : Block :=
  mkBlock (hash b) (height b) (body b) t (previousBlockHash b).
Definition set_previousBlockHash (b : Block) (h : option string) : Block :=
  mkBlock (hash b) (height b) (body b) (time b) h.

Section Methods.
Context `{ext : Externals}.

(** Modelled from the spec: [new Block(data)].  The payload is stored
    encoded, the previous hash starts as the "none" sentinel, and the block
    is not sealed yet. *)
Definition new (data : BData Star) : Block :=
  mkBlock None 0 (encode_body data) EmptyString None.

(** Modelled from the spec: [block.validate()] recomputes the digest of
    the block from its own fields, the stored hash excluded, and compares
    it with the stored hash. *)
Definition validate (b : Block) : bool :=
  match hash b with
  | Some h => String.eqb h (SHA256 (JSON_stringify (set_hash b None)))
  | None => false
  end.

(** Modelled from the spec: [block.getBData()] decodes the body. *)
Definition getBData (b : Block) : option (BData Star) :=
  decode_body (body b).
End Methods.

End BlockClass.

Import BlockClass (Block, BData, GenesisData, StarData, Externals, Star,
  star_truthy, SHA256, JSON_stringify, encode_body, decode_body,
  bitcoinMessage_verify).

(** ** The [Blockchain] object and its methods *)

Record Blockchain : Type := mkBlockchain {
  chain : list Block;
  height : Z
}.

(** A method runs against the object, may mutate it, and settles its promise.
    The final state is returned on both paths, so that what a failing call
    leaves behind is part of the model. *)
Definition M (A : Type) : Type := Blockchain -> outcome A * Blockchain.

Definition ret {A} (a : A) : M A := fun self => (Resolve a, self).
Definition throw {A} (e : exn) : M A := fun self => (Reject e, self).
Definition bind {A B} (m : M A) (k : A -> M B) : M B :=
  fun self =>
    match m self with
    | (Resolve a, self') => k a self'
    | (Reject e, self') => (Reject e, self')
    end.
Definition try_catch {A} (m : M A) (handler : exn -> M A) : M A :=
  fun self =>
    match m self with
    | (Resolve a, self') => (Resolve a, self')
    | (Reject e, self') => handler e self'
    end.
Definition this : M Blockchain := fun self => (Resolve self, self).
Definition settle {A} (o : outcome A) : M A := fun self => (o, self).
Definition chain_push (b : Block) : M unit :=
  fun self => (Resolve tt, mkBlockchain (chain self ++ [b]) (height self)).
Definition height_assign (n : Z) : M unit :=
  fun self => (Resolve tt, mkBlockchain (chain self) n).

Notation "'let*' x ':=' m 'in' k" := (bind m (fun x => k))
  (at level 10, x name, m at level 100, k at level 200).
Notation "m ';;' k" := (bind m (fun _ => k))
  (at level 100, k at level 200, right associativity).

(** [arr[i]] for an integer index: [undefined] out of range. *)
Definition at_index {A} (arr : list A) (i : Z) : option A :=
  if i <? 0 then None else arr !! Z.to_nat i.

(** [a !== b] on values that are [null] or strings. *)
Definition strict_neq (a b : option string) : bool :=
  match a, b with
  | Some x, Some y => negb (String.eqb x y)
  | None, None => false
  | _, _ => true
  end.

Definition tampered_message (b : Block) : string :=
  "Block " +:+ JS.interpolate (BlockClass.hash b) +:+ " was tampered.".

Definition linkage_message (b : Block) : string :=
  "Previous block hash doesnt match with "
    +:+ JS.interpolate (BlockClass.hash b)
    +:+ " block's previous hash property.".

Definition not_found_message (hash : string) : string :=
  "Block with hash " +:+ JS.dquote +:+ hash +:+ JS.dquote +:+ " was not found.".

Section Blockchain.
Context `{ext : Externals}.

(** The body of the [for ... of] loop of [validateChain], threaded through
    the rest of the chain: [errorLog] and [prevHash] are the loop's two
    mutable variables. *)
Fixpoint validateChain_loop (blocks : list Block)
    (prevHash : option string) (errorLog : list string) : list string :=
  match blocks with
  | [] => errorLog
  | block :: rest =>
      let wasTampered := negb (BlockClass.validate block) in
      let errorLog1 :=
        if wasTampered then errorLog ++ [tampered_message block]
        else errorLog in
      let hashesDontMatch :=
        strict_neq (BlockClass.previousBlockHash block) prevHash in
      let errorLog2 :=
        if hashesDontMatch then errorLog1 ++ [linkage_message block]
        else errorLog1 in
      validateChain_loop rest (BlockClass.hash block) errorLog2
  end.

(** [block.validate()] is modelled as total, so the [catch] branch that
    rethrows its failures has nothing to catch. *)
Definition validateChain : M (list string) :=
  let* self := this in
  ret (validateChain_loop (chain self) None []).

(** [now] is what [new Date().getTime()] reads when the block is sealed. *)
Definition _addBlock (now : Z) (block : Block) : M Block :=
  let* errors := validateChain in
  let hasErrors := negb (Nat.eqb (length errors) 0) in
  if hasErrors
  then throw (Error "Cannot add block because chain has errors.")
  else
    let* self := this in
    let isNotGenesisBlock := negb (height self =? -1) in
    let* block :=
      (if isNotGenesisBlock
       then
         let prevHash :=
           match at_index (chain self) (height self - 1) with
           | Some prev => BlockClass.hash prev
           | None => None
           end in
         if negb (JS.truthy_string prevHash)
         then throw (Error "Previous block hash not found.")
         else ret (BlockClass.set_previousBlockHash block prevHash)
       else ret block) in
    let block := BlockClass.set_time block (JS.seconds_string now) in
    let block := BlockClass.set_height block (Z.of_nat (length (chain self))) in
    let blockHash := SHA256 (JSON_stringify block) in
    let block := BlockClass.set_hash block (Some blockHash) in
    chain_push block ;;
    let* self := this in
    height_assign (Z.of_nat (length (chain self))) ;;
    ret block.

Definition initializeChain (now : Z) : M unit :=
  let* self := this in
  if height self =? -1
  then
    let block := BlockClass.new (GenesisData "Genesis Block") in
    _addBlock now block ;;
    ret tt
  else ret tt.

(** [new Blockchain()]: an empty chain and the counter at -1.  The
    constructor also starts [initializeChain], but does not await it: the
    caller receives the object before anything has been appended and can
    already call methods on it.  The completion of that pending call is the
    operation [InitializeChain] of [run] below. *)
Definition constructor : Blockchain := mkBlockchain [] (-1).

(** The ledger once the [initializeChain] started by the constructor has
    completed, nothing else having run in between. *)
Definition initialized (now : Z) : Blockchain :=
  snd (initializeChain now constructor).

(** [self.chain[self.height - 1]?.hash], as [_addBlock] reads it. *)
Definition previous_hash (self : Blockchain) : option string :=
  match at_index (chain self) (height self - 1) with
  | Some prev => BlockClass.hash prev
  | None => None
  end.

Definition getChainHeight : M Z :=
  let* self := this in
  ret (height self).

Definition requestMessageOwnershipVerification (now : Z) (address : string)
    : M string :=
  ret (address +:+ ":" +:+ JS.seconds_string now +:+ ":starRegistry").

(** [now] is the clock reading of the elapsed-time check, [sealedAt] the
    later reading taken inside [_addBlock]. *)
Definition submitStar (now sealedAt : Z)
    (address message signature : string) (star : Star) : M Block :=
  let fiveMinutes := 5 * 60 in
  let msgTime := JS.parseInt_value (JS.split ":" message !! 1%nat) in
  let currentTime := JS.parseInt (JS.seconds_string now) in
  let elapsedTime := JS.sub currentTime msgTime in
  let elapsedIsMoreThan5Minutes := JS.gt elapsedTime fiveMinutes in
  if elapsedIsMoreThan5Minutes
  then throw (Error "Elapsed time is more then 5 minutes.")
  else
    let* isValid := settle (bitcoinMessage_verify message address signature) in
    if negb isValid
    then throw (Error "Message validation with address and signature failed.")
    else
      let newStarBlock := BlockClass.new (StarData star address) in
      try_catch (_addBlock sealedAt newStarBlock)
                (fun e => throw (Error (exn_toString e))).

Definition getBlockByHash (hash : string) : M Block :=
  let* self := this in
  match List.find
          (fun b => match BlockClass.hash b with
                    | Some h => String.eqb h hash
                    | None => false
                    end)
          (chain self) with
  | Some block => ret block
  | None => throw (Thrown (not_found_message hash))
  end.

Definition getBlockByHeight (n : Z) : M (option Block) :=
  let* self := this in
  match List.find (fun b => BlockClass.height b =? n) (chain self) with
  | Some block => ret (Some block)
  | None => ret None
  end.

Definition getStarsByWalletAddress (address : string)
    : M (list (BData Star)) :=
  let* self := this in
  ret (List.fold_left
         (fun stars block =>
            match BlockClass.getBData block with
            | Some (StarData star owner) =>
                if String.eqb owner address && star_truthy star
                then stars ++ [StarData star owner]
                else stars
            | _ => stars
            end)
         (chain self) []).

(** The rest of [submitStar] once the elapsed-time check has passed:
    signature verification, then the append. *)
Definition verify_and_append (sealedAt : Z)
    (address message signature : string) (star : Star) : M Block :=
  fun self =>
    match bitcoinMessage_verify message address signature with
    | Resolve true =>
        try_catch (_addBlock sealedAt (BlockClass.new (StarData star address)))
                  (fun e => throw (Error (exn_toString e))) self
    | Resolve false =>
        (Reject (Error "Message validation with address and signature failed."),
         self)
    | Reject e => (Reject e, self)
    end.

(** The embedded timestamp of a challenge and the elapsed time that
    [submitStar] computes from it. *)
Definition embedded_timestamp (message : string) : option Z :=
  JS.parseInt_value (JS.split ":" message !! 1%nat).

Definition elapsed (now : Z) (message : string) : option Z :=
  JS.sub (JS.parseInt (JS.seconds_string now)) (embedded_timestamp message).

(** *** Operations of the ledger and the states they reach *)

Inductive Op : Type :=
| InitializeChain (now : Z)
| AddBlock (now : Z) (data : BData Star)
| GetChainHeight
| RequestMessageOwnershipVerification (now : Z) (address : string)
| SubmitStar (now sealedAt : Z) (address message signature : string)
             (star : Star)
| GetBlockByHash (hash : string)
| GetBlockByHeight (n : Z)
| GetStarsByWalletAddress (address : string)
| ValidateChain.

(** The state an operation leaves behind, whatever its promise settles to.
    [AddBlock] is [_addBlock] on a freshly constructed block. *)
Definition run (op : Op) (self : Blockchain) : Blockchain :=
  match op with
  | InitializeChain now => snd (initializeChain now self)
  | AddBlock now data => snd (_addBlock now (BlockClass.new data) self)
  | GetChainHeight => snd (getChainHeight self)
  | RequestMessageOwnershipVerification now address =>
      snd (requestMessageOwnershipVerification now address self)
  | SubmitStar now sealedAt address message signature star =>
      snd (submitStar now sealedAt address message signature star self)
  | GetBlockByHash hash => snd (getBlockByHash hash self)
  | GetBlockByHeight n => snd (getBlockByHeight n self)
  | GetStarsByWalletAddress address =>
      snd (getStarsByWalletAddress address self)
  | ValidateChain => snd (validateChain self)
  end.

Inductive reachable : Blockchain -> Prop :=
| reachable_constructor : reachable constructor
| reachable_run op self : reachable self -> reachable (run op self).

(** *** Properties of a stored chain *)

(** Hash of the last stored block, [None] on an empty chain. *)
Definition last_hash (blocks : list Block) : option string :=
  match last blocks with
  | Some prev => BlockClass.hash prev
  | None => None
  end.

Definition linked (blocks : list Block) : Prop :=
  (forall b, blocks !! 0%nat = Some b -> BlockClass.previousBlockHash b = None)
  /\ (forall i b prev,
        blocks !! S i = Some b -> blocks !! i = Some prev ->
        BlockClass.previousBlockHash b = BlockClass.hash prev).

Definition indexed (blocks : list Block) : Prop :=
  forall i b, blocks !! i = Some b -> BlockClass.height b = Z.of_nat i.

Definition height_is_length (self : Blockchain) : Prop :=
  height self = Z.of_nat (length (chain self)).

(** The state [new Blockchain()] hands out: nothing stored yet and the
    counter still at its "no genesis block" mark. *)
Definition pre_genesis (self : Blockchain) : Prop :=
  chain self = [] /\ height self = -1.

(** The facts carried along every run of the ledger. *)
Definition consistent (self : Blockchain) : Prop :=
  height_is_length self /\ linked (chain self) /\ indexed (chain self)
  /\ chain self <> [].

(** What the validator has to say about one block, given the hash of the
    block before it: the report of a full traversal is the concatenation of
    these, block by block. *)
Definition block_violations (prevHash : option string) (b : Block)
    : list string :=
  (if BlockClass.validate b then [] else [tampered_message b])
  ++ (if strict_neq (BlockClass.previousBlockHash b) prevHash
      then [linkage_message b] else []).

Fixpoint full_report (prevHash : option string) (blocks : list Block)
    : list string :=
  match blocks with
  | [] => []
  | b :: rest =>
      block_violations prevHash b ++ full_report (BlockClass.hash b) rest
  end.

End Blockchain.

(** The errors of the ledger, by the message each one carries. *)
Definition ChainCorruptError : exn :=
  Error "Cannot add block because chain has errors.".
Definition MissingPreviousHashError : exn :=
  Error "Previous block hash not found.".
Definition ElapsedTimeError : exn :=
  Error "Elapsed time is more then 5 minutes.".
Definition SignatureInvalidError : exn :=
  Error "Message validation with address and signature failed.".
Definition NotFoundError (hash : string) : exn :=
  Thrown (not_found_message hash).

(** ** A concrete instance to run the model on

    A toy digest that prefixes its input, a comma-separated serialisation and
    a verifier that accepts the signature ["ok"]. *)
Module Demo.

Definition stringify (b : Block) : string :=
  JS.interpolate (BlockClass.hash b) +:+ ","
    +:+ JS.toString (BlockClass.height b) +:+ ","
    +:+ BlockClass.body b +:+ ","
    +:+ BlockClass.time b +:+ ","
    +:+ JS.interpolate (BlockClass.previousBlockHash b).

Definition encode (d : BData string) : string :=
  match d with
  | GenesisData x => "G" +:+ x
  | StarData s a => "S" +:+ a +:+ "/" +:+ s
  end.

#[export] Instance externals : Externals := {|
  Star := string;
  star_truthy := fun s => negb (String.eqb s EmptyString);
  SHA256 := fun s => "#" +:+ s;
  JSON_stringify := stringify;
  encode_body := encode;
  decode_body := fun _ => None;
  bitcoinMessage_verify := fun _ _ signature =>
    Resolve (String.eqb signature "ok")
|}.

(** The ledger once the genesis append started by the constructor has
    completed, and its genesis block. *)
Definition fresh : Blockchain := initialized 1790000000123.

Definition genesis_hash : string := "#null,0,GGenesis Block,1790000000,null".

Definition genesis : Block :=
  BlockClass.mkBlock (Some genesis_hash) 0 "GGenesis Block" "1790000000" None.

(** The genesis block with its body overwritten and its hash left alone. *)
Definition tampered : Blockchain :=
  mkBlockchain [BlockClass.set_body genesis "forged"] (height fresh).

(** The object as [new Blockchain()] first sets it up, before the genesis
    block is appended. *)
Definition blank : Blockchain := mkBlockchain [] (-1).

(** A stored block whose height field was overwritten with 7. *)
Definition misnumbered : Blockchain :=
  mkBlockchain [BlockClass.set_height genesis 7] (height fresh).

(** A challenge issued at second 1790000000, one with no timestamp in it,
    and the ledger after a star was registered 100 seconds later. *)
Definition challenge : string := "addr:1790000000:starRegistry".
Definition garbled : string := "addr:soon:starRegistry".

Definition registered : Blockchain :=
  run (SubmitStar 1790000100123 1790000100456 "addr" challenge "ok" "star")
      fresh.

(** Blocks as [new Block(data)] hands them to [_addBlock]. *)
Definition genesis_candidate : Block :=
  BlockClass.new (GenesisData "Genesis Block").
Definition star_candidate : Block := BlockClass.new (StarData "star" "addr").
Definition late_candidate : Block := BlockClass.new (GenesisData "late").

Definition star_block : Block :=
  BlockClass.mkBlock
    (Some ("#null,1,Saddr/star,1790000100," +:+ genesis_hash))
    1 "Saddr/star" "1790000100" (Some genesis_hash).

End Demo.

(** ** Further notions for the properties of the whole class *)

(** Linkage read along the chain, the way the validator walks it: each block
    names the hash tracked so far, starting from [prevHash]. *)
Fixpoint chain_links (prevHash : option string) (blocks : list Block) : Prop :=
  match blocks with
  | [] => True
  | b :: rest =>
      BlockClass.previousBlockHash b = prevHash
      /\ chain_links (BlockClass.hash b) rest
  end.

(** A string with no [:] in it. *)
Fixpoint no_colon (s : string) : bool :=
  match s with
  | EmptyString => true
  | String c rest => negb (Ascii.eqb c ":") && no_colon rest
  end.

Section Registry.
Context `{ext : Externals}.

(** What [getStarsByWalletAddress] keeps of one block: its decoded body, when
    that carries the address asked for and a truthy star. *)
Definition owned_star (address : string) (b : Block) : option (BData Star) :=
  match BlockClass.getBData b with
  | Some (StarData star owner) =>
      if String.eqb owner address && star_truthy star
      then Some (StarData star owner) else None
  | _ => None
  end.

(** Every stored block passes its own [validate()]. *)
Definition all_sealed (blocks : list Block) : Prop :=
  Forall (fun b => BlockClass.validate b = true) blocks.

End Registry.

(** A second concrete instance, whose body codec can be read back. *)
Module Archive.

Definition decode (s : string) : option (BData string) :=
  match s with
  | EmptyString => None
  | String c rest =>
      if Ascii.eqb c "G" then Some (GenesisData rest)
      else if Ascii.eqb c "S" then
        match JS.split "/" rest with
        | [owner; star] => Some (StarData star owner)
        | _ => None
        end
      else None
  end.

Definition externals : Externals := {|
  Star := string;
  star_truthy := fun s => negb (String.eqb s EmptyString);
  SHA256 := fun s => "#" +:+ s;
  JSON_stringify := Demo.stringify;
  encode_body := Demo.encode;
  decode_body := decode;
  bitcoinMessage_verify := fun _ _ signature =>
    Resolve (String.eqb signature "ok")
|}.

Definition fresh : Blockchain := initialized (ext := externals) 1790000000123.

Definition registered : Blockchain :=
  run (ext := externals)
    (SubmitStar (ext := externals) 1790000100123 1790000100456
       "addr" Demo.challenge "ok" "star")
    fresh.

End Archive.

(** * Proofs *)

(** ** Decimal printing and [parseInt] *)

Module JSFacts.
Import JS.

Example split_challenge :
  split ":" "addr:1790000000:starRegistry"
  = ["addr"; "1790000000"; "starRegistry"].
Proof. reflexivity. Qed.

Example split_no_separator : split ":" "addr" !! 1%nat = None.
Proof. reflexivity. Qed.

Example parseInt_samples :
  parseInt "1790000000" = Some 1790000000
  /\ parseInt "  -0x1Fz" = Some (-31)
  /\ parseInt "12px" = Some 12
  /\ parseInt "soon" = None
  /\ parseInt EmptyString = None
  /\ parseInt_value None = None.
Proof. repeat split. Qed.

Example seconds_string_samples :
  seconds_string 1790000000123 = "1790000000"
  /\ seconds_string 1000 = "1"
  /\ seconds_string 999 = EmptyString.
Proof. repeat split. Qed.

Lemma append_nil (b : string) : EmptyString +:+ b = b.
Proof. reflexivity. Qed.

Lemma append_cons (x : ascii) (a b : string) :
  String x a +:+ b = String x (a +:+ b).
Proof. reflexivity. Qed.

Lemma append_assoc (a b c : string) : (a +:+ b) +:+ c = a +:+ (b +:+ c).
Proof.
  induction a as [|x a IH]; [reflexivity|].
  rewrite !append_cons. now rewrite IH.
Qed.

Lemma length_append (a b : string) :
  String.length (a +:+ b) = (String.length a + String.length b)%nat.
Proof.
  induction a as [|x a IH]; [reflexivity|].
  rewrite append_cons. simpl. now rewrite IH.
Qed.

Lemma substring_prefix (a b : string) :
  String.substring 0 (String.length a) (a +:+ b) = a.
Proof.
  induction a as [|x a IH].
  - rewrite append_nil. now destruct b.
  - rewrite append_cons. simpl. now rewrite IH.
Qed.

(** Dropping the last [k] code units of [a +:+ b] when [b] has [k]. *)
Lemma slice_0_neg_append (k : nat) (a b : string) :
  String.length b = k -> slice_0_neg k (a +:+ b) = a.
Proof.
  intros Hb. unfold slice_0_neg.
  rewrite length_append, Hb.
  replace (String.length a + k - k)%nat with (String.length a) by lia.
  apply substring_prefix.
Qed.

(** The digits of [x] followed by [s] are the digits of [x], then [s]. *)
Lemma pretty_N_go_append (x : N) (s : string) :
  pretty_N_go x s = pretty_N_go x EmptyString +:+ s.
Proof.
  revert s. induction (N.lt_wf_0 x) as [x _ IH]. intros s.
  destruct (N.eq_dec x 0%N) as [->|Hx].
  - now rewrite !pretty_N_go_0.
  - assert (0 < x)%N as Hpos by lia.
    rewrite (pretty_N_go_step x s), (pretty_N_go_step x EmptyString)
      by exact Hpos.
    assert (x `div` 10 < x)%N as Hlt by (apply N.div_lt; lia).
    rewrite (IH _ Hlt (String _ s)), (IH _ Hlt (String _ EmptyString)).
    now rewrite append_assoc.
Qed.

Lemma pretty_N_go_last (x : N) :
  (0 < x)%N ->
  pretty_N_go x EmptyString
  = pretty_N_go (x `div` 10)%N EmptyString
      +:+ String (pretty_N_char (x `mod` 10)%N) EmptyString.
Proof.
  intros Hx. rewrite pretty_N_go_step by exact Hx. apply pretty_N_go_append.
Qed.

Lemma pretty_Z_nonneg (z : Z) :
  0 < z -> pretty z = pretty_N_go (Z.to_N z) EmptyString.
Proof. destruct z; try lia. intros _. reflexivity. Qed.

(** Whole seconds of a clock reading of at least one second: dropping the
    last three digits of the milliseconds divides by 1000. *)
Lemma seconds_string_div (now : Z) :
  1000 <= now -> seconds_string now = toString (now / 1000).
Proof.
  intros Hnow. unfold seconds_string, toString.
  assert (0 < now / 1000) as Hq by (apply Z.div_str_pos; lia).
  rewrite (pretty_Z_nonneg now), (pretty_Z_nonneg (now / 1000)) by lia.
  set (x := Z.to_N now).
  assert (1000 <= x)%N as Hx by (unfold x; lia).
  assert (Z.to_N (now / 1000) = ((x `div` 10) `div` 10) `div` 10)%N as ->.
  { unfold x. rewrite !N.Div0.div_div. change (10 * 10 * 10)%N with 1000%N.
    rewrite Z2N.inj_div by lia. reflexivity. }
  assert (0 < x `div` 10)%N by (apply N.div_str_pos; lia).
  assert (100 <= x `div` 10)%N by (apply N.div_le_lower_bound; lia).
  assert (0 < (x `div` 10) `div` 10)%N by (apply N.div_str_pos; lia).
  rewrite (pretty_N_go_last x) by lia.
  rewrite (pretty_N_go_last (x `div` 10)%N) by lia.
  rewrite (pretty_N_go_last ((x `div` 10) `div` 10)%N) by lia.
  rewrite !append_assoc.
  apply slice_0_neg_append. reflexivity.
Qed.

(** *** Reading back what [toString] printed *)

Lemma all_decimal_append (a b : string) :
  all_decimal a -> all_decimal b -> all_decimal (a +:+ b).
Proof.
  induction a as [|x a IH]; [auto|].
  rewrite append_cons. simpl. intuition.
Qed.

Lemma pretty_N_char_code (d : N) :
  (d < 10)%N -> code (pretty_N_char d) = 48 + Z.of_N d.
Proof.
  intros Hd.
  assert (d = 0 \/ d = 1 \/ d = 2 \/ d = 3 \/ d = 4 \/ d = 5 \/ d = 6
          \/ d = 7 \/ d = 8 \/ d = 9)%N as Hcases by lia.
  repeat (destruct Hcases as [->|Hcases]; [reflexivity|]).
  now subst d.
Qed.

Lemma pretty_N_char_decimal (d : N) :
  (d < 10)%N -> is_decimal (pretty_N_char d).
Proof.
  intros Hd. unfold is_decimal. rewrite pretty_N_char_code by exact Hd. lia.
Qed.

Lemma digit_value_decimal (c : ascii) :
  is_decimal c -> digit_value c = Some (code c - 48).
Proof.
  unfold is_decimal, digit_value. intros Hc.
  destruct (Z.leb_spec 48 (code c)); [|lia].
  destruct (Z.leb_spec (code c) 57); [|lia].
  reflexivity.
Qed.

Lemma parse_digits_append (acc : option Z) (a b : string) :
  all_decimal a ->
  parse_digits 10 acc (a +:+ b) = parse_digits 10 (parse_digits 10 acc a) b.
Proof.
  revert acc. induction a as [|x a IH]; intros acc Ha.
  - reflexivity.
  - rewrite append_cons. simpl.
    destruct Ha as [Hx Ha]. rewrite (digit_value_decimal x Hx).
    unfold is_decimal in Hx.
    destruct (Z.ltb_spec (code x - 48) 10); [|lia].
    now apply IH.
Qed.

Lemma digit_value_pretty_N_char (d : N) :
  (d < 10)%N -> digit_value (pretty_N_char d) = Some (Z.of_N d).
Proof.
  intros Hd. rewrite digit_value_decimal by now apply pretty_N_char_decimal.
  rewrite pretty_N_char_code by exact Hd. f_equal. lia.
Qed.

Lemma pretty_N_go_decimal (x : N) : all_decimal (pretty_N_go x EmptyString).
Proof.
  induction (N.lt_wf_0 x) as [x _ IH].
  destruct (N.eq_dec x 0%N) as [->|Hx]; [exact I|].
  rewrite pretty_N_go_last by lia.
  apply all_decimal_append.
  - apply IH. apply N.div_lt; lia.
  - simpl. split; [|exact I].
    apply pretty_N_char_decimal, N.mod_lt. discriminate.
Qed.

Lemma parse_digits_pretty_N_go (x : N) :
  (0 < x)%N ->
  parse_digits 10 None (pretty_N_go x EmptyString) = Some (Z.of_N x).
Proof.
  induction (N.lt_wf_0 x) as [x _ IH]. intros Hx.
  rewrite pretty_N_go_last by exact Hx.
  rewrite parse_digits_append by apply pretty_N_go_decimal.
  pose proof (N.mod_lt x 10%N ltac:(discriminate)) as Hm.
  pose proof (N.div_mod x 10%N ltac:(discriminate)) as Hdm.
  pose proof (N.div_lt x 10%N Hx ltac:(reflexivity)) as Hlt.
  pose proof (digit_value_pretty_N_char _ Hm) as Hd.
  specialize (IH (x `div` 10)%N Hlt).
  revert Hm Hdm Hlt Hd IH.
  generalize (x `mod` 10)%N as m, (x `div` 10)%N as q.
  intros m q Hm Hdm Hlt Hd IH.
  destruct (N.eq_dec q 0%N) as [Hq|Hq].
  - rewrite Hq, pretty_N_go_0. simpl. rewrite Hd.
    destruct (Z.ltb_spec (Z.of_N m) 10); [|lia].
    f_equal. lia.
  - rewrite IH by lia.
    simpl. rewrite Hd.
    destruct (Z.ltb_spec (Z.of_N m) 10); [|lia].
    f_equal. lia.
Qed.

(** On a non-empty string of decimal digits [parseInt] skips nothing, sees
    no sign and no hexadecimal prefix. *)
Lemma parseInt_decimal (s : string) (n : Z) :
  s <> EmptyString -> all_decimal s ->
  parse_digits 10 None s = Some n -> parseInt s = Some n.
Proof.
  intros Hne Hdec Hparse. unfold parseInt.
  destruct s as [|c0 rest]; [congruence|].
  destruct Hdec as [Hc0 Hrest]. unfold is_decimal in Hc0.
  assert (trim_start (String c0 rest) = String c0 rest) as ->.
  { simpl. unfold is_white_space.
    repeat match goal with
           | |- context [?a =? ?b] => destruct (Z.eqb_spec a b); [lia|]
           end.
    reflexivity. }
  destruct (Z.eqb_spec (code c0) 45); [lia|].
  destruct (Z.eqb_spec (code c0) 43); [lia|].
  assert ((let '(radix, s3) :=
             match String c0 rest with
             | String c0 (String c1 rest) =>
                 if (code c0 =? 48) && ((code c1 =? 120) || (code c1 =? 88))
                 then (16, rest) else (10, String c0 (String c1 rest))
             | _ => (10, String c0 rest)
             end in
           match parse_digits radix None s3 with
           | Some n => Some (1 * n)
           | None => None
           end) = Some n) as Hgoal.
  { destruct rest as [|c1 rest].
    - rewrite Hparse. f_equal. lia.
    - destruct Hrest as [Hc1 _]. unfold is_decimal in Hc1.
      destruct (Z.eqb_spec (code c1) 120); [lia|].
      destruct (Z.eqb_spec (code c1) 88); [lia|].
      rewrite andb_false_r. rewrite Hparse. f_equal. lia. }
  destruct rest; exact Hgoal.
Qed.

Lemma toString_not_empty (n : Z) : 0 < n -> toString n <> EmptyString.
Proof.
  intros Hn. unfold toString. rewrite pretty_Z_nonneg by exact Hn.
  rewrite pretty_N_go_last by lia.
  destruct (pretty_N_go _ EmptyString); discriminate.
Qed.

Lemma parseInt_toString (n : Z) : 0 <= n -> parseInt (toString n) = Some n.
Proof.
  intros Hn. destruct (Z.eq_dec n 0) as [->|Hne]; [reflexivity|].
  apply parseInt_decimal.
  - apply toString_not_empty. lia.
  - unfold toString. rewrite pretty_Z_nonneg by lia. apply pretty_N_go_decimal.
  - unfold toString. rewrite pretty_Z_nonneg by lia.
    rewrite parse_digits_pretty_N_go by lia. f_equal. lia.
Qed.

(** [currentTime] of [submitStar]: the clock in whole seconds. *)
Lemma currentTime_seconds (now : Z) :
  1000 <= now -> parseInt (seconds_string now) = Some (now / 1000).
Proof.
  intros Hnow. rewrite seconds_string_div by exact Hnow.
  apply parseInt_toString. apply Z.div_pos; lia.
Qed.

End JSFacts.

(** ** The append path *)

Section AppendProofs.
Context `{ext : Externals}.

Lemma validateChain_run (self : Blockchain) :
  validateChain self
  = (Resolve (validateChain_loop (chain self) None []), self).
Proof. reflexivity. Qed.

Lemma length_eqb_0 {A} (l : list A) :
  negb (Nat.eqb (length l) 0) = false <-> l = [].
Proof. destruct l; simpl; split; intros; congruence. Qed.

(** Every way [_addBlock] can end.  Either it rejects and hands the object
    back untouched, or it resolves with the block it has just pushed. *)
Lemma _addBlock_inv (now : Z) (block : Block) (self : Blockchain)
    (o : outcome Block) (self' : Blockchain) :
  _addBlock now block self = (o, self') ->
  (exists e, o = Reject e /\ self' = self)
  \/ (exists blk,
        o = Resolve blk
        /\ self' = mkBlockchain (chain self ++ [blk])
                     (Z.of_nat (length (chain self ++ [blk])))
        /\ validateChain_loop (chain self) None [] = []
        /\ BlockClass.height blk = Z.of_nat (length (chain self))
        /\ BlockClass.body blk = BlockClass.body block
        /\ BlockClass.time blk = JS.seconds_string now
        /\ (height self = -1 ->
            BlockClass.previousBlockHash blk
            = BlockClass.previousBlockHash block)
        /\ (height self <> -1 ->
            exists prev,
              at_index (chain self) (height self - 1) = Some prev
              /\ JS.truthy_string (BlockClass.hash prev) = true
              /\ BlockClass.previousBlockHash blk = BlockClass.hash prev)).
Proof.
  unfold _addBlock, bind. rewrite validateChain_run.
  destruct (negb (Nat.eqb (length (validateChain_loop (chain self) None [])) 0))
    eqn:Herrors.
  - intros [= <- <-]. left. eauto.
  - apply length_eqb_0 in Herrors.
    unfold this. destruct (Z.eqb_spec (height self) (-1)) as [Hgen|Hgen]; simpl.
    + intros [= <- <-]. right. eexists. repeat split; try reflexivity.
      * exact Herrors.
      * intros Hne. contradiction.
    + destruct (at_index (chain self) (height self - 1)) as [prev|] eqn:Hprev;
        simpl.
      * destruct (JS.truthy_string (BlockClass.hash prev)) eqn:Htruthy; simpl.
        -- intros [= <- <-]. right. eexists. repeat split; try reflexivity.
           ++ exact Herrors.
           ++ intros Heq. contradiction.
           ++ intros _. exists prev. repeat split; assumption.
        -- intros [= <- <-]. left. eauto.
      * intros [= <- <-]. left. eauto.
Qed.

Lemma _addBlock_corrupt (now : Z) (block : Block) (self : Blockchain) :
  validateChain_loop (chain self) None [] <> [] ->
  _addBlock now block self = (Reject ChainCorruptError, self).
Proof.
  intros Hbad. unfold _addBlock, bind. rewrite validateChain_run.
  destruct (negb (Nat.eqb (length (validateChain_loop (chain self) None [])) 0))
    eqn:Herrors.
  - reflexivity.
  - apply length_eqb_0 in Herrors. contradiction.
Qed.

(** [arr[length - 1]] is the last element. *)
Lemma at_index_last {A} (arr : list A) (x : A) :
  at_index arr (Z.of_nat (length arr) - 1) = Some x -> last arr = Some x.
Proof.
  unfold at_index. rewrite last_lookup.
  destruct (Z.ltb_spec (Z.of_nat (length arr) - 1) 0); [discriminate|].
  replace (Z.to_nat (Z.of_nat (length arr) - 1)) with (Nat.pred (length arr))
    by lia.
  auto.
Qed.

Lemma at_index_Some_lt {A} (arr : list A) (i : Z) (x : A) :
  at_index arr i = Some x -> 0 <= i < Z.of_nat (length arr).
Proof.
  unfold at_index. destruct (Z.ltb_spec i 0); [discriminate|].
  intros Hx. apply lookup_lt_Some in Hx. lia.
Qed.

(** C1. Whenever [_addBlock] fails, the chain array and the height counter
    are exactly what they were before the call; and when the pre-append
    validation reports at least one violation, the call does fail, with the
    chain-corrupt error. *)
Theorem addBlock_failure_is_atomic (now : Z) (block : Block)
    (self : Blockchain) :
  (forall e self',
      _addBlock now block self = (Reject e, self') ->
      chain self' = chain self /\ height self' = height self)
  /\ (fst (validateChain self) <> Resolve [] ->
      _addBlock now block self = (Reject ChainCorruptError, self)).
Proof.
  split.
  - intros e self' Hrun.
    destruct (_addBlock_inv _ _ _ _ _ Hrun) as [(e' & _ & ->)|(blk & Hres & _)].
    + split; reflexivity.
    + discriminate Hres.
  - intros Hbad. apply _addBlock_corrupt.
    intros Hnil. apply Hbad. rewrite validateChain_run, Hnil. reflexivity.
Qed.

(** C5, as the code has it. When [_addBlock] succeeds on a freshly
    constructed block with payload [data], the block it returns is the one
    now stored last; its height is the former chain length, its body is the
    encoded payload, and the height counter becomes the former chain length
    plus one.  If the counter equalled the chain length before, it has grown
    by exactly one and the new block points at the hash of the former last
    block; in the genesis case (empty chain, counter at -1) the block keeps
    the "none" sentinel and the counter goes from -1 to 1. *)
Theorem addBlock_success (now : Z) (data : BData Star) (self : Blockchain)
    (blk : Block) (self' : Blockchain) :
  _addBlock now (BlockClass.new data) self = (Resolve blk, self') ->
  chain self' = chain self ++ [blk]
  /\ height self' = Z.of_nat (length (chain self)) + 1
  /\ BlockClass.height blk = Z.of_nat (length (chain self))
  /\ BlockClass.body blk = encode_body data
  /\ (height_is_length self ->
      height self' = height self + 1
      /\ chain self <> []
      /\ BlockClass.previousBlockHash blk = last_hash (chain self))
  /\ (height self = -1 ->
      BlockClass.previousBlockHash blk = None
      /\ (chain self = [] -> height self' = 1)).
Proof.
  intros Hrun.
  destruct (_addBlock_inv _ _ _ _ _ Hrun)
    as [(e & Hres & _)|(b & Hres & -> & _ & Hh & Hbody & _ & Hgen & Hlink)].
  { discriminate Hres. }
  injection Hres as <-. simpl. rewrite length_app. simpl.
  unfold height_is_length.
  split; [reflexivity|]. split; [lia|]. split; [exact Hh|].
  split; [exact Hbody|]. split.
  - intros Hlen.
    destruct Hlink as (prev & Hprev & _ & Hhash); [lia|].
    split; [lia|]. split.
    + apply at_index_Some_lt in Hprev. intros Hnil.
      rewrite Hnil in Hprev. simpl in Hprev. lia.
    + rewrite Hlen in Hprev. apply at_index_last in Hprev.
      unfold last_hash. rewrite Hprev. exact Hhash.
  - intros Hminus. split.
    + rewrite (Hgen Hminus). reflexivity.
    + intros Hnil. rewrite Hnil. reflexivity.
Qed.

End AppendProofs.

(** ** The validator *)

Section ValidatorProofs.
Context `{ext : Externals}.

(** The loop appends to the log it is given exactly what a full traversal
    finds, block by block: nothing stops it early. *)
Lemma validateChain_loop_report (blocks : list Block)
    (prevHash : option string) (errorLog : list string) :
  validateChain_loop blocks prevHash errorLog
  = errorLog ++ full_report prevHash blocks.
Proof.
  revert prevHash errorLog.
  induction blocks as [|b rest IH]; intros prevHash errorLog; simpl.
  - now rewrite app_nil_r.
  - rewrite IH. unfold block_violations.
    destruct (BlockClass.validate b),
      (strict_neq (BlockClass.previousBlockHash b) prevHash); simpl;
      rewrite <- ?app_assoc; reflexivity.
Qed.

Lemma full_report_app (prevHash : option string) (front back : list Block) :
  full_report prevHash (front ++ back)
  = full_report prevHash front
      ++ full_report (match last front with
                      | Some b => BlockClass.hash b
                      | None => prevHash
                      end) back.
Proof.
  revert prevHash. induction front as [|b front IH]; intros prevHash; simpl.
  - reflexivity.
  - rewrite IH, <- app_assoc. do 2 f_equal.
    destruct front as [|b' front']; [reflexivity|].
    rewrite !last_cons. destruct (last front'); reflexivity.
Qed.

(** A body overwritten in place: the stored hash no longer matches. *)
Lemma validate_set_body (b : Block) (body' : string) :
  BlockClass.validate b = true ->
  SHA256 (JSON_stringify
            (BlockClass.set_hash (BlockClass.set_body b body') None))
  <> SHA256 (JSON_stringify (BlockClass.set_hash b None)) ->
  BlockClass.validate (BlockClass.set_body b body') = false.
Proof.
  unfold BlockClass.validate. simpl.
  destruct (BlockClass.hash b) as [h|]; [|discriminate].
  intros Hvalid Hdiff. apply String.eqb_eq in Hvalid. subst h.
  apply String.eqb_neq. congruence.
Qed.

Lemma full_report_tampered (blocks : list Block) (prevHash : option string)
    (i : nat) (b : Block) (body' : string) :
  full_report prevHash blocks = [] ->
  blocks !! i = Some b ->
  BlockClass.validate (BlockClass.set_body b body') = false ->
  full_report prevHash (<[i := BlockClass.set_body b body']> blocks)
  = [tampered_message b].
Proof.
  revert prevHash i.
  induction blocks as [|x rest IH]; intros prevHash i Hclean Hi Hbad.
  - discriminate Hi.
  - simpl in Hclean. apply app_eq_nil in Hclean as [Hx Hrest].
    destruct i as [|i]; simpl in *.
    + injection Hi as ->. rewrite Hrest, app_nil_r.
      unfold block_violations in *. rewrite Hbad. simpl.
      destruct (BlockClass.validate b); [|discriminate Hx].
      simpl in Hx.
      destruct (strict_neq (BlockClass.previousBlockHash b) prevHash);
        [discriminate Hx|reflexivity].
    + rewrite Hx. simpl. now apply IH.
Qed.

(** C6. Take a chain the validator finds no fault with and overwrite the
    body of one stored block, leaving its hash alone, with a body whose
    digest differs from the original's.  The validator then returns exactly
    one violation, the tamper report naming that block's stored hash.  More
    generally the report of any chain is the concatenation, over all blocks
    in order, of what each block violates: the traversal never stops at the
    first finding. *)
Theorem validateChain_reports_tampered_block (self : Blockchain) (i : nat)
    (b : Block) (body' : string) :
  (fst (validateChain self) = Resolve [] ->
   chain self !! i = Some b ->
   SHA256 (JSON_stringify
             (BlockClass.set_hash (BlockClass.set_body b body') None))
   <> SHA256 (JSON_stringify (BlockClass.set_hash b None)) ->
   exists h,
     BlockClass.hash b = Some h
     /\ fst (validateChain
               (mkBlockchain
                  (<[i := BlockClass.set_body b body']> (chain self))
                  (height self)))
        = Resolve ["Block " +:+ h +:+ " was tampered."])
  /\ validateChain self = (Resolve (full_report None (chain self)), self).
Proof.
  split.
  - rewrite !validateChain_run. simpl.
    rewrite !validateChain_loop_report. simpl.
    intros [= Hclean] Hi Hdiff.
    assert (BlockClass.validate b = true) as Hvalid.
    { apply (take_drop_middle _ _ _) in Hi. rewrite <- Hi in Hclean.
      rewrite full_report_app in Hclean.
      apply app_eq_nil in Hclean as [_ Hclean]. simpl in Hclean.
      apply app_eq_nil in Hclean as [Hclean _].
      unfold block_violations in Hclean.
      destruct (BlockClass.validate b); [reflexivity|discriminate Hclean]. }
    pose proof (validate_set_body b body' Hvalid Hdiff) as Hbad.
    unfold BlockClass.validate in Hvalid.
    destruct (BlockClass.hash b) as [h|] eqn:Hh; [|discriminate Hvalid].
    exists h. split; [reflexivity|].
    rewrite (full_report_tampered _ _ _ _ _ Hclean Hi Hbad).
    unfold tampered_message. rewrite Hh. reflexivity.
  - rewrite validateChain_run, validateChain_loop_report. reflexivity.
Qed.

End ValidatorProofs.

(** ** Invariants of the reachable states *)

Section InvariantProofs.
Context `{ext : Externals}.

Lemma try_catch_rethrow_state {A} (m : M A) (wrap : exn -> exn)
    (self : Blockchain) :
  snd (try_catch m (fun e => throw (wrap e)) self) = snd (m self).
Proof.
  unfold try_catch, throw. destruct (m self) as [[a|e] s]; reflexivity.
Qed.

(** An operation either leaves the object as it was or is one successful
    [_addBlock]. *)
Lemma run_cases (op : Op) (self : Blockchain) :
  run op self = self
  \/ exists now data blk,
       _addBlock now (BlockClass.new data) self = (Resolve blk, run op self).
Proof.
  assert (forall now data,
             let after := snd (_addBlock now (BlockClass.new data) self) in
             after = self
             \/ exists blk,
                  _addBlock now (BlockClass.new data) self
                  = (Resolve blk, after))
    as Happend.
  { intros now data.
    destruct (_addBlock now (BlockClass.new data) self) as [o s] eqn:Hrun.
    destruct (_addBlock_inv _ _ _ _ _ Hrun) as [(e & -> & ->)|(blk & -> & _)].
    - left. reflexivity.
    - right. exists blk. reflexivity. }
  destruct op; simpl; try (left; reflexivity).
  - unfold initializeChain, bind, this.
    destruct (height self =? -1); [|left; reflexivity].
    destruct (Happend now (GenesisData "Genesis Block"))
      as [Hsame|(blk & Hrun)].
    + left. destruct (_addBlock _ _ self) as [[b|e] s]; exact Hsame.
    + right. exists now, (GenesisData "Genesis Block"), blk.
      rewrite Hrun at 1. f_equal. rewrite Hrun. reflexivity.
  - destruct (Happend now data) as [Hsame|(blk & Hrun)].
    + left. exact Hsame.
    + right. eauto.
  - unfold submitStar, bind, settle.
    destruct (JS.gt _ _); [left; reflexivity|].
    destruct (bitcoinMessage_verify message address signature) as [[|]|e];
      simpl; try (left; reflexivity).
    rewrite try_catch_rethrow_state.
    destruct (Happend sealedAt (StarData star address)) as [Hsame|(blk & Hrun)].
    + left. exact Hsame.
    + right. eauto.
  - unfold getBlockByHash, bind, this. destruct (find _ _); left; reflexivity.
  - unfold getBlockByHeight, bind, this. destruct (find _ _); left; reflexivity.
Qed.

Lemma consistent_singleton (b : Block) :
  BlockClass.previousBlockHash b = None ->
  BlockClass.height b = 0 ->
  consistent (mkBlockchain [b] 1).
Proof.
  intros Hprev Hheight.
  unfold consistent, height_is_length, linked, indexed. simpl.
  repeat split.
  - intros x [= <-]. exact Hprev.
  - intros i x prev Hx. destruct i; discriminate Hx.
  - intros [|i] x Hx; [|destruct i; discriminate Hx].
    injection Hx as <-. exact Hheight.
  - discriminate.
Qed.

(** The first append, on the object as the constructor left it. *)
Lemma consistent_genesis_append (now : Z) (data : BData Star)
    (self self' : Blockchain) (blk : Block) :
  pre_genesis self ->
  _addBlock now (BlockClass.new data) self = (Resolve blk, self') ->
  consistent self'.
Proof.
  intros [Hnil Hminus] Hrun.
  destruct (_addBlock_inv _ _ _ _ _ Hrun)
    as [(e & Hres & _)|(b & Hres & -> & _ & Hh & _ & _ & Hgen & _)].
  { discriminate Hres. }
  injection Hres as <-. rewrite Hnil in *. simpl in *.
  apply consistent_singleton; [|exact Hh].
  rewrite (Hgen Hminus). reflexivity.
Qed.

Lemma consistent_addBlock (now : Z) (block blk : Block)
    (self self' : Blockchain) :
  consistent self ->
  _addBlock now block self = (Resolve blk, self') ->
  consistent self'.
Proof.
  intros (Hlen & [Hfirst Hlink] & Hidx & _) Hrun.
  unfold height_is_length in Hlen.
  destruct (_addBlock_inv _ _ _ _ _ Hrun)
    as [(e & Hres & _)|(b & Hres & -> & _ & Hh & _ & _ & _ & Hprev)].
  { discriminate Hres. }
  injection Hres as <-.
  destruct Hprev as (prev & Hat & _ & Hhash); [lia|].
  rewrite Hlen in Hat.
  pose proof (at_index_Some_lt _ _ _ Hat) as Hrange.
  apply at_index_last in Hat. rewrite last_lookup in Hat.
  unfold consistent, height_is_length, linked, indexed. simpl.
  repeat split.
  - intros b Hb. apply Hfirst.
    rewrite lookup_app_l in Hb by lia. exact Hb.
  - intros i b p Hb Hp.
    destruct (Nat.lt_ge_cases (S i) (length (chain self))) as [Hin|Hout].
    + rewrite lookup_app_l in Hb, Hp by lia. eapply Hlink; eassumption.
    + pose proof (lookup_lt_Some _ _ _ Hb) as Hb'.
      rewrite length_app in Hb'. simpl in Hb'.
      assert (S i = length (chain self)) as Hi by lia.
      rewrite lookup_app_r in Hb by lia.
      rewrite Hi, Nat.sub_diag in Hb. injection Hb as <-.
      rewrite lookup_app_l in Hp by lia.
      replace (Nat.pred (length (chain self))) with i in Hat by lia.
      rewrite Hat in Hp. injection Hp as <-. exact Hhash.
  - intros i b Hb.
    destruct (Nat.lt_ge_cases i (length (chain self))) as [Hin|Hout].
    + rewrite lookup_app_l in Hb by lia. now apply Hidx.
    + pose proof (lookup_lt_Some _ _ _ Hb) as Hb'.
      rewrite length_app in Hb'. simpl in Hb'.
      assert (i = length (chain self)) as Hi by lia.
      rewrite lookup_app_r in Hb by lia.
      rewrite Hi, Nat.sub_diag in Hb. injection Hb as <-.
      rewrite Hh, Hi. reflexivity.
  - intros Hnil. apply app_eq_nil in Hnil as [_ Hnil]. discriminate Hnil.
Qed.

Lemma consistent_run (op : Op) (self : Blockchain) :
  consistent self -> consistent (run op self).
Proof.
  intros Hself.
  destruct (run_cases op self) as [->|(now & block & blk & Hrun)].
  - exact Hself.
  - eapply consistent_addBlock; eassumption.
Qed.

(** A reachable ledger is either still as the constructor left it or holds
    a genesis block and everything [consistent] says. *)
Lemma reachable_consistent (self : Blockchain) :
  reachable self -> pre_genesis self \/ consistent self.
Proof.
  induction 1 as [|op self _ [Hpre|Hcons]].
  - left. split; reflexivity.
  - destruct (run_cases op self) as [->|(now & data & blk & Hrun)].
    + left. exact Hpre.
    + right. eapply consistent_genesis_append; eassumption.
  - right. now apply consistent_run.
Qed.

Lemma reachable_settled (self : Blockchain) :
  reachable self -> chain self <> [] -> consistent self.
Proof.
  intros Hreach Hne.
  destruct (reachable_consistent self Hreach) as [[Hnil _]|Hcons];
    [contradiction|exact Hcons].
Qed.

Lemma reachable_initialized (now : Z) : reachable (initialized now).
Proof.
  exact (reachable_run (InitializeChain now) constructor reachable_constructor).
Qed.

(** No operation ever lowers the counter, from any state at all. *)
Lemma run_height_le (op : Op) (self : Blockchain) :
  height self <= height (run op self).
Proof.
  destruct (run_cases op self) as [->|(now & block & blk & Hrun)]; [lia|].
  destruct (_addBlock_inv _ _ _ _ _ Hrun)
    as [(e & Hres & _)|(b & _ & -> & _ & _ & _ & _ & _ & Hprev)].
  { discriminate Hres. }
  simpl. rewrite length_app. simpl.
  destruct (Z.eq_dec (height self) (-1)) as [Hgen|Hgen]; [lia|].
  destruct (Hprev Hgen) as (prev & Hat & _).
  apply at_index_Some_lt in Hat. lia.
Qed.

(** C4, as the code has it. In every state reachable from a freshly
    constructed ledger every block after the first carries the hash of the
    block before it, and no operation decrements the height counter.  The
    ledger is either still as [new Blockchain()] handed it out (empty chain,
    counter at -1, the genesis append not yet completed), or its first block
    carries the "none" sentinel as previous hash and the counter equals the
    length of the chain. *)
Theorem reachable_chain_invariants (self : Blockchain) :
  reachable self ->
  (pre_genesis self
   \/ ((exists genesis, chain self !! 0%nat = Some genesis
                        /\ BlockClass.previousBlockHash genesis = None)
       /\ height self = Z.of_nat (length (chain self))))
  /\ (forall i b prev,
         chain self !! S i = Some b -> chain self !! i = Some prev ->
         BlockClass.previousBlockHash b = BlockClass.hash prev)
  /\ (forall op, height self <= height (run op self)).
Proof.
  intros Hreach. split; [|split].
  - destruct (reachable_consistent self Hreach)
      as [Hpre|(Hlen & [Hfirst _] & _ & Hne)]; [left; exact Hpre|].
    right. split; [|exact Hlen].
    destruct (chain self) as [|genesis rest]; [contradiction|].
    exists genesis. split; [reflexivity|]. now apply Hfirst.
  - destruct (reachable_consistent self Hreach)
      as [[Hnil _]|(_ & [_ Hlink] & _)]; [|exact Hlink].
    rewrite Hnil. intros i b prev Hb. discriminate Hb.
  - intros op. apply run_height_le.
Qed.

End InvariantProofs.

(** ** Lookups *)

Section LookupProofs.
Context `{ext : Externals}.

Lemma find_none_all {A} (f : A -> bool) (l : list A) :
  (forall x, In x l -> f x = false) -> find f l = None.
Proof.
  induction l as [|x l IH]; intros Hall; simpl; [reflexivity|].
  rewrite (Hall x (or_introl eq_refl)). apply IH.
  intros y Hy. apply Hall. now right.
Qed.

(** In a list whose [i]-th block has height [k + i], the first block of
    height [k + j] is the one at position [j]. *)
Lemma find_height_offset (blocks : list Block) (k j : nat) (b : Block) :
  (forall i x, blocks !! i = Some x ->
               BlockClass.height x = Z.of_nat (k + i)) ->
  blocks !! j = Some b ->
  find (fun x => BlockClass.height x =? Z.of_nat (k + j)) blocks = Some b.
Proof.
  revert k j. induction blocks as [|x rest IH]; intros k j Hidx Hj.
  - discriminate Hj.
  - simpl. pose proof (Hidx 0%nat x eq_refl) as Hx.
    destruct j as [|j]; simpl in Hj.
    + injection Hj as ->. rewrite Hx, Z.eqb_refl. reflexivity.
    + destruct (Z.eqb_spec (BlockClass.height x) (Z.of_nat (k + S j)));
        [lia|].
      replace (k + S j)%nat with (S k + j)%nat by lia.
      apply IH; [|exact Hj].
      intros i y Hy. rewrite (Hidx (S i) y Hy). f_equal. lia.
Qed.

Lemma getBlockByHeight_indexed (self : Blockchain) (i : nat) (b : Block) :
  indexed (chain self) ->
  chain self !! i = Some b ->
  getBlockByHeight (Z.of_nat i) self = (Resolve (Some b), self).
Proof.
  intros Hidx Hi. unfold getBlockByHeight, bind, this.
  pose proof (find_height_offset (chain self) 0 i b) as Hfind.
  simpl in Hfind. rewrite Hfind; [reflexivity| |exact Hi].
  intros j x Hx. now apply Hidx.
Qed.

Lemma getBlockByHeight_beyond (self : Blockchain) (n : Z) :
  indexed (chain self) ->
  Z.of_nat (length (chain self)) <= n ->
  getBlockByHeight n self = (Resolve None, self).
Proof.
  intros Hidx Hn. unfold getBlockByHeight, bind, this.
  rewrite find_none_all; [reflexivity|].
  intros x Hx. apply list_elem_of_In, list_elem_of_lookup in Hx as [i Hi].
  rewrite (Hidx i x Hi). apply lookup_lt_Some in Hi.
  apply Z.eqb_neq. lia.
Qed.

Lemma getBlockByHeight_no_such_height (self : Blockchain) (n : Z) :
  (forall b, In b (chain self) -> BlockClass.height b <> n) ->
  getBlockByHeight n self = (Resolve None, self).
Proof.
  intros Hmiss. unfold getBlockByHeight, bind, this.
  rewrite find_none_all; [reflexivity|].
  intros b Hb. apply Z.eqb_neq. now apply Hmiss.
Qed.

(** C8, as the code has it. In every chain state, a hash that no stored
    block carries makes [getBlockByHash] reject with the not-found error,
    whereas [getBlockByHeight] never rejects and resolves with an absent
    result for every [n] that no stored block carries in its height field.
    In every state reachable from a freshly constructed ledger that covers
    every [n] at or beyond the height counter. *)
Theorem lookups_report_a_miss_differently (self : Blockchain) :
  (forall hash,
      (forall b, In b (chain self) -> BlockClass.hash b <> Some hash) ->
      getBlockByHash hash self = (Reject (NotFoundError hash), self))
  /\ (forall n, rejected (fst (getBlockByHeight n self)) = false)
  /\ (forall n,
        (forall b, In b (chain self) -> BlockClass.height b <> n) ->
        getBlockByHeight n self = (Resolve None, self))
  /\ (reachable self ->
      forall n, height self <= n ->
                getBlockByHeight n self = (Resolve None, self)).
Proof.
  split; [|split; [|split]].
  - intros hash Hmiss. unfold getBlockByHash, bind, this.
    rewrite find_none_all; [reflexivity|].
    intros b Hb. specialize (Hmiss b Hb).
    destruct (BlockClass.hash b) as [h|]; [|reflexivity].
    apply String.eqb_neq. congruence.
  - intros n. unfold getBlockByHeight, bind, this.
    destruct (find _ _); reflexivity.
  - intros n. apply getBlockByHeight_no_such_height.
  - intros Hreach n Hn.
    destruct (reachable_consistent self Hreach)
      as [[Hnil _]|(Hlen & _ & Hidx & _)].
    + apply getBlockByHeight_no_such_height. rewrite Hnil. intros b [].
    + apply getBlockByHeight_beyond; [exact Hidx|].
      unfold height_is_length in Hlen. lia.
Qed.

(** C10. In every reachable state each stored block's height field is its
    index in the chain; hence for every [n] from 0 up to the height,
    [getBlockByHeight n] resolves with the block stored at index [n]. *)
Theorem reachable_heights_are_indices (self : Blockchain) :
  reachable self ->
  (forall i b, chain self !! i = Some b ->
               BlockClass.height b = Z.of_nat i)
  /\ (forall n, 0 <= n < height self ->
        exists b, chain self !! Z.to_nat n = Some b
                  /\ getBlockByHeight n self = (Resolve (Some b), self)).
Proof.
  intros Hreach.
  destruct (reachable_consistent self Hreach)
    as [[Hnil Hminus]|(Hlen & _ & Hidx & _)].
  { split.
    - rewrite Hnil. intros i b Hb. discriminate Hb.
    - intros n Hn. lia. }
  split; [exact Hidx|].
  intros n Hn. unfold height_is_length in Hlen.
  destruct (lookup_lt_is_Some_2 (chain self) (Z.to_nat n)) as [b Hb]; [lia|].
  exists b. split; [exact Hb|].
  rewrite <- (Z2Nat.id n) at 1 by lia.
  now apply getBlockByHeight_indexed.
Qed.

End LookupProofs.

(** ** The ownership-proof workflow *)

Section WorkflowProofs.
Context `{ext : Externals}.

(** [submitStar] is its time check followed by everything else. *)
Lemma submitStar_unfold (now sealedAt : Z)
    (address message signature : string) (star : Star) (self : Blockchain) :
  submitStar now sealedAt address message signature star self
  = if JS.gt (elapsed now message) 300
    then (Reject ElapsedTimeError, self)
    else verify_and_append sealedAt address message signature star self.
Proof.
  unfold submitStar, elapsed, embedded_timestamp, verify_and_append.
  change (5 * 60) with 300.
  destruct (JS.gt _ 300); [reflexivity|].
  unfold bind, settle.
  destruct (bitcoinMessage_verify message address signature) as [[|]|e];
    reflexivity.
Qed.

Lemma elapsed_unparseable (now : Z) (message : string) :
  embedded_timestamp message = None ->
  JS.gt (elapsed now message) 300 = false.
Proof.
  intros Hnan. unfold elapsed. rewrite Hnan.
  destruct (JS.parseInt (JS.seconds_string now)); reflexivity.
Qed.

Lemma elapsed_seconds (now t : Z) (message : string) :
  1000 <= now -> embedded_timestamp message = Some t ->
  elapsed now message = Some (now / 1000 - t).
Proof.
  intros Hnow Ht. unfold elapsed.
  rewrite JSFacts.currentTime_seconds by exact Hnow. rewrite Ht. reflexivity.
Qed.

(** C2, as the code has it. A challenge with no parseable embedded
    timestamp is not refused for that: its elapsed time is [NaN], the time
    check lets it through, and the call is decided by the signature alone.
    It fails with the signature error when the signature does not verify,
    with whatever the verifier throws when it throws, and goes on to append
    when the signature verifies. *)
Theorem submitStar_unparseable_timestamp (now sealedAt : Z)
    (address message signature : string) (star : Star) (self : Blockchain) :
  embedded_timestamp message = None ->
  (bitcoinMessage_verify message address signature = Resolve false ->
   submitStar now sealedAt address message signature star self
   = (Reject SignatureInvalidError, self))
  /\ (forall e,
        bitcoinMessage_verify message address signature = Reject e ->
        submitStar now sealedAt address message signature star self
        = (Reject e, self))
  /\ (bitcoinMessage_verify message address signature = Resolve true ->
      submitStar now sealedAt address message signature star self
      = try_catch
          (_addBlock sealedAt (BlockClass.new (StarData star address)))
          (fun e => throw (Error (exn_toString e))) self).
Proof.
  intros Hnan. rewrite submitStar_unfold, elapsed_unparseable by exact Hnan.
  unfold verify_and_append.
  split; [|split]; [intros -> | intros e -> | intros ->]; reflexivity.
Qed.

(** C3, as the code has it. The time check comes before the signature
    check.  A call whose signature does not verify always fails and leaves
    the ledger as it was: with the elapsed-time error when the elapsed time
    is above 300 seconds; otherwise with the signature error when the
    verifier answers false, and with the verifier's own exception when the
    verifier throws. *)
Theorem submitStar_invalid_signature (now sealedAt : Z)
    (address message signature : string) (star : Star) (self : Blockchain) :
  bitcoinMessage_verify message address signature <> Resolve true ->
  (JS.gt (elapsed now message) 300 = true ->
   submitStar now sealedAt address message signature star self
   = (Reject ElapsedTimeError, self))
  /\ (JS.gt (elapsed now message) 300 = false ->
      bitcoinMessage_verify message address signature = Resolve false ->
      submitStar now sealedAt address message signature star self
      = (Reject SignatureInvalidError, self))
  /\ (JS.gt (elapsed now message) 300 = false ->
      forall e,
        bitcoinMessage_verify message address signature = Reject e ->
        submitStar now sealedAt address message signature star self
        = (Reject e, self))
  /\ rejected
       (fst (submitStar now sealedAt address message signature star self))
     = true
  /\ snd (submitStar now sealedAt address message signature star self)
     = self.
Proof.
  intros Hbad. rewrite submitStar_unfold. unfold verify_and_append.
  split; [intros ->; reflexivity|].
  split; [intros -> ->; reflexivity|].
  split; [intros -> e ->; reflexivity|].
  destruct (JS.gt (elapsed now message) 300); [split; reflexivity|].
  destruct (bitcoinMessage_verify message address signature) as [[|]|e];
    [contradiction|split; reflexivity..].
Qed.

(** C7. With the clock past its first second, a challenge whose embedded
    timestamp lies more than 300 seconds before the current time in whole
    seconds is refused with the elapsed-time error, whatever the signature;
    an elapsed time of at most 300 seconds, negative ones included, passes
    the time check, so that a valid signature leads on to the append. *)
Theorem submitStar_time_window (now sealedAt t : Z)
    (address message signature : string) (star : Star) (self : Blockchain) :
  1000 <= now ->
  embedded_timestamp message = Some t ->
  (300 < now / 1000 - t ->
   submitStar now sealedAt address message signature star self
   = (Reject ElapsedTimeError, self))
  /\ (now / 1000 - t <= 300 ->
      bitcoinMessage_verify message address signature = Resolve true ->
      submitStar now sealedAt address message signature star self
      = try_catch
          (_addBlock sealedAt (BlockClass.new (StarData star address)))
          (fun e => throw (Error (exn_toString e))) self).
Proof.
  intros Hnow Ht. rewrite submitStar_unfold.
  rewrite (elapsed_seconds now t message Hnow Ht). simpl.
  split.
  - intros Hold. destruct (Z.ltb_spec 300 (now / 1000 - t)); [reflexivity|lia].
  - intros Hfresh Hvalid.
    destruct (Z.ltb_spec 300 (now / 1000 - t)); [lia|].
    unfold verify_and_append. rewrite Hvalid. reflexivity.
Qed.

(** C9. With the clock past its first second, the challenge issued for an
    address is that address, a colon, the current Unix time in whole
    seconds printed in decimal, and [:starRegistry]; the ledger is not
    touched. *)
Theorem requestMessageOwnershipVerification_format (now : Z)
    (address : string) (self : Blockchain) :
  1000 <= now ->
  requestMessageOwnershipVerification now address self
  = (Resolve (address +:+ ":" +:+ JS.toString (now / 1000)
                +:+ ":starRegistry"),
     self).
Proof.
  intros Hnow. unfold requestMessageOwnershipVerification, ret.
  rewrite JSFacts.seconds_string_div by exact Hnow. reflexivity.
Qed.

End WorkflowProofs.

(** ** The theorems at work on the demo ledger *)

Lemma demo_fresh_chain : chain Demo.fresh = [Demo.genesis].
Proof. reflexivity. Qed.

Lemma demo_registered_chain :
  chain Demo.registered = [Demo.genesis; Demo.star_block].
Proof. reflexivity. Qed.

Lemma demo_registered_reachable :
  reachable (ext := Demo.externals) Demo.registered.
Proof. apply reachable_run, reachable_initialized. Qed.

(** C1 at work: appending to the tampered ledger is refused and nothing
    moves. *)
Lemma addBlock_failure_is_atomic_witness :
  _addBlock (ext := Demo.externals) 1790000100123
    Demo.late_candidate Demo.tampered
  = (Reject ChainCorruptError, Demo.tampered)
  /\ (forall e self',
        _addBlock (ext := Demo.externals) 1790000100123
          Demo.late_candidate Demo.tampered
        = (Reject e, self') ->
        chain self' = chain Demo.tampered
        /\ height self' = height Demo.tampered).
Proof.
  destruct (addBlock_failure_is_atomic (ext := Demo.externals) 1790000100123
              Demo.late_candidate Demo.tampered)
    as [Hatomic Hcorrupt].
  split; [|exact Hatomic].
  apply Hcorrupt. vm_compute. discriminate.
Defined.

(** C2 refuted as stated: a challenge with no timestamp in it, signed
    validly, is accepted and a block is appended. *)
Lemma submitStar_malformed_challenge_counterexample :
  embedded_timestamp Demo.garbled = None
  /\ rejected
       (fst (submitStar (ext := Demo.externals) 1790000100123 1790000100456
               "addr" Demo.garbled "ok" "star" Demo.fresh)) = false
  /\ height
       (snd (submitStar (ext := Demo.externals) 1790000100123 1790000100456
               "addr" Demo.garbled "ok" "star" Demo.fresh)) = 2.
Proof. vm_compute. repeat split. Qed.

Lemma submitStar_unparseable_timestamp_witness :
  submitStar (ext := Demo.externals) 1790000100123 1790000100456
    "addr" Demo.garbled "forged" "star" Demo.fresh
  = (Reject SignatureInvalidError, Demo.fresh).
Proof.
  destruct (submitStar_unparseable_timestamp (ext := Demo.externals)
              1790000100123 1790000100456 "addr" Demo.garbled "forged" "star"
              Demo.fresh) as (Hbad & _ & _).
  - reflexivity.
  - apply Hbad. reflexivity.
Defined.

(** C3 refuted as stated: a bad signature on a challenge 400 seconds old
    fails with the elapsed-time error, not with the signature error. *)
Lemma submitStar_invalid_signature_counterexample :
  bitcoinMessage_verify (Externals := Demo.externals)
    Demo.challenge "addr" "forged" = Resolve false
  /\ submitStar (ext := Demo.externals) 1790000400123 1790000400456
       "addr" Demo.challenge "forged" "star" Demo.fresh
     = (Reject ElapsedTimeError, Demo.fresh)
  /\ ElapsedTimeError <> SignatureInvalidError.
Proof. vm_compute. repeat split. discriminate. Qed.

Lemma submitStar_invalid_signature_witness :
  submitStar (ext := Demo.externals) 1790000100123 1790000100456
    "addr" Demo.challenge "forged" "star" Demo.fresh
  = (Reject SignatureInvalidError, Demo.fresh)
  /\ submitStar (ext := Demo.externals) 1790000400123 1790000400456
       "addr" Demo.challenge "forged" "star" Demo.fresh
     = (Reject ElapsedTimeError, Demo.fresh).
Proof.
  split.
  - destruct (submitStar_invalid_signature (ext := Demo.externals)
                1790000100123 1790000100456 "addr" Demo.challenge "forged"
                "star" Demo.fresh) as (_ & Hintime & _).
    + vm_compute. discriminate.
    + apply Hintime; reflexivity.
  - destruct (submitStar_invalid_signature (ext := Demo.externals)
                1790000400123 1790000400456 "addr" Demo.challenge "forged"
                "star" Demo.fresh) as (Hlate & _).
    + vm_compute. discriminate.
    + apply Hlate. reflexivity.
Defined.

(** C4 refuted as stated: the object [new Blockchain()] hands out is a
    reachable state whose counter is -1 over an empty chain, with no block
    at index 0; [getChainHeight] shows it. *)
Lemma fresh_ledger_counterexample :
  reachable (ext := Demo.externals) constructor
  /\ chain constructor !! 0%nat = None
  /\ height constructor <> Z.of_nat (length (chain constructor))
  /\ getChainHeight constructor = (Resolve (-1), constructor).
Proof.
  split; [apply reachable_constructor|].
  split; [reflexivity|]. split; [discriminate|reflexivity].
Qed.

Lemma reachable_chain_invariants_witness :
  height Demo.registered = Z.of_nat (length (chain Demo.registered))
  /\ (forall i b prev,
        chain Demo.registered !! S i = Some b ->
        chain Demo.registered !! i = Some prev ->
        BlockClass.previousBlockHash b = BlockClass.hash prev).
Proof.
  destruct (reachable_chain_invariants (ext := Demo.externals) Demo.registered)
    as ([[Hnil _]|[_ Hlen]] & Hlink & _).
  - apply reachable_run, reachable_initialized.
  - rewrite demo_registered_chain in Hnil. discriminate Hnil.
  - split; [exact Hlen|exact Hlink].
Defined.

(** C5 refuted as stated: the genesis append takes the counter from -1 to 1,
    an increase of two. *)
Lemma addBlock_genesis_counterexample :
  height Demo.blank = -1
  /\ _addBlock (ext := Demo.externals) 1790000000123
       Demo.genesis_candidate Demo.blank
     = (Resolve Demo.genesis, mkBlockchain [Demo.genesis] 1)
  /\ height (mkBlockchain [Demo.genesis] 1) <> height Demo.blank + 1.
Proof. vm_compute. repeat split. discriminate. Qed.

Lemma addBlock_success_witness :
  chain Demo.registered = chain Demo.fresh ++ [Demo.star_block]
  /\ height Demo.registered = Z.of_nat (length (chain Demo.fresh)) + 1
  /\ BlockClass.height Demo.star_block = Z.of_nat (length (chain Demo.fresh)).
Proof.
  destruct (addBlock_success (ext := Demo.externals) 1790000100456
              (StarData "star" "addr") Demo.fresh Demo.star_block
              Demo.registered)
    as (Hchain & Hheight & Hblock & _).
  - reflexivity.
  - repeat split; assumption.
Defined.

Lemma validateChain_reports_tampered_block_witness :
  exists h,
    BlockClass.hash Demo.genesis = Some h
    /\ fst (validateChain (ext := Demo.externals)
              (mkBlockchain
                 (<[0%nat := BlockClass.set_body Demo.genesis "forged"]>
                    (chain Demo.fresh))
                 (height Demo.fresh)))
       = Resolve ["Block " +:+ h +:+ " was tampered."].
Proof.
  apply (validateChain_reports_tampered_block (ext := Demo.externals)
           Demo.fresh 0 Demo.genesis "forged").
  - reflexivity.
  - reflexivity.
  - vm_compute. discriminate.
Defined.

Lemma submitStar_time_window_witness :
  submitStar (ext := Demo.externals) 1790000301123 1790000301456
    "addr" Demo.challenge "ok" "star" Demo.fresh
  = (Reject ElapsedTimeError, Demo.fresh)
  /\ submitStar (ext := Demo.externals) 1789999990123 1789999990456
       "addr" Demo.challenge "ok" "star" Demo.fresh
     = try_catch
         (_addBlock (ext := Demo.externals) 1789999990456
            Demo.star_candidate)
         (fun e => throw (Error (exn_toString e))) Demo.fresh.
Proof.
  split.
  - destruct (submitStar_time_window (ext := Demo.externals)
                1790000301123 1790000301456 1790000000
                "addr" Demo.challenge "ok" "star" Demo.fresh) as [Hexpired _].
    + lia.
    + reflexivity.
    + apply Hexpired. vm_compute. reflexivity.
  - destruct (submitStar_time_window (ext := Demo.externals)
                1789999990123 1789999990456 1790000000
                "addr" Demo.challenge "ok" "star" Demo.fresh) as [_ Hearly].
    + lia.
    + reflexivity.
    + apply Hearly.
      * vm_compute. discriminate.
      * reflexivity.
Defined.

(** C8 refuted as stated: a stored block whose height field reads 7 is
    what [getBlockByHeight 7] returns, although 7 is beyond the counter. *)
Lemma getBlockByHeight_misnumbered_counterexample :
  height Demo.misnumbered <= 7
  /\ getBlockByHeight 7 Demo.misnumbered
     = (Resolve (Some (BlockClass.set_height Demo.genesis 7)),
        Demo.misnumbered).
Proof. split; [vm_compute; discriminate|reflexivity]. Qed.

Lemma lookups_report_a_miss_differently_witness :
  getBlockByHash "nowhere" Demo.fresh
  = (Reject (NotFoundError "nowhere"), Demo.fresh)
  /\ getBlockByHeight 1 Demo.fresh = (Resolve None, Demo.fresh)
  /\ getBlockByHeight 0 Demo.misnumbered = (Resolve None, Demo.misnumbered).
Proof.
  destruct (lookups_report_a_miss_differently (ext := Demo.externals)
              Demo.fresh) as (Hhash & _ & _ & Hreach).
  destruct (lookups_report_a_miss_differently (ext := Demo.externals)
              Demo.misnumbered) as (_ & _ & Hnone & _).
  split; [|split].
  - apply Hhash. intros b [<-|[]]. discriminate.
  - apply Hreach.
    + apply reachable_initialized.
    + vm_compute. discriminate.
  - apply Hnone. intros b [<-|[]]. discriminate.
Defined.

Lemma requestMessageOwnershipVerification_format_witness :
  requestMessageOwnershipVerification 1790000000123 "addr" Demo.fresh
  = (Resolve "addr:1790000000:starRegistry", Demo.fresh).
Proof.
  apply (requestMessageOwnershipVerification_format
           1790000000123 "addr" Demo.fresh).
  lia.
Defined.

Lemma reachable_heights_are_indices_witness :
  getBlockByHeight 1 Demo.registered
  = (Resolve (Some Demo.star_block), Demo.registered).
Proof.
  destruct (reachable_heights_are_indices (ext := Demo.externals)
              Demo.registered) as (_ & Hfind).
  - apply reachable_run, reachable_initialized.
  - destruct (Hfind 1) as (b & Hb & Hget).
    + vm_compute. split; [discriminate|reflexivity].
    + rewrite demo_registered_chain in Hb. injection Hb as <-. exact Hget.
Defined.

(** * The rest of the class *)

(** ** What an empty report means *)

Section ValidityProofs.
Context `{ext : Externals}.

Lemma strict_neq_false (a b : option string) :
  strict_neq a b = false <-> a = b.
Proof.
  destruct a as [x|], b as [y|]; simpl; split; intros Heq;
    try discriminate; try reflexivity.
  - apply negb_false_iff, String.eqb_eq in Heq. now subst.
  - injection Heq as ->. now rewrite String.eqb_refl.
Qed.

Lemma block_violations_nil (prevHash : option string) (b : Block) :
  block_violations prevHash b = []
  <-> BlockClass.validate b = true
      /\ BlockClass.previousBlockHash b = prevHash.
Proof.
  unfold block_violations.
  destruct (BlockClass.validate b); simpl.
  - destruct (strict_neq (BlockClass.previousBlockHash b) prevHash) eqn:Hneq.
    + split; [discriminate|].
      intros [_ Heq]. apply strict_neq_false in Heq. congruence.
    + split; [|reflexivity].
      intros _. split; [reflexivity|]. now apply strict_neq_false.
  - split; [discriminate|]. intros [Hfalse _]. discriminate Hfalse.
Qed.

Lemma full_report_nil (prevHash : option string) (blocks : list Block) :
  full_report prevHash blocks = []
  <-> all_sealed blocks /\ chain_links prevHash blocks.
Proof.
  unfold all_sealed. revert prevHash.
  induction blocks as [|b rest IH]; intros prevHash; simpl.
  - split; [intros _; split; [constructor|exact I]|reflexivity].
  - split.
    + intros Hnil. apply app_eq_nil in Hnil as [Hb Hrest].
      apply block_violations_nil in Hb as [Hvalid Hprev].
      apply IH in Hrest as [Hsealed Hlinks].
      repeat split; [constructor|..]; assumption.
    + intros [Hsealed [Hprev Hlinks]].
      apply Forall_cons_iff in Hsealed as [Hvalid Hsealed].
      rewrite (proj2 (block_violations_nil prevHash b) (conj Hvalid Hprev)).
      apply IH. split; assumption.
Qed.

(** The walk along the chain and the index-wise reading of linkage agree. *)
Lemma chain_links_lookup (prevHash : option string) (blocks : list Block) :
  chain_links prevHash blocks
  <-> (forall b, blocks !! 0%nat = Some b ->
                 BlockClass.previousBlockHash b = prevHash)
      /\ (forall i b prev,
            blocks !! S i = Some b -> blocks !! i = Some prev ->
            BlockClass.previousBlockHash b = BlockClass.hash prev).
Proof.
  revert prevHash. induction blocks as [|x rest IH]; intros prevHash; simpl.
  - split; [|intros _; exact I].
    intros _. split; [intros b Hb|intros i b prev Hb]; discriminate Hb.
  - rewrite IH. split.
    + intros (Hx & Hfirst & Hnext). split.
      * intros b [= <-]. exact Hx.
      * intros [|i] b prev Hb Hprev; simpl in *.
        -- injection Hprev as <-. now apply Hfirst.
        -- eapply Hnext; eassumption.
    + intros (Hfirst & Hnext). split; [now apply Hfirst|]. split.
      * intros b Hb. apply (Hnext 0%nat b x); [exact Hb|reflexivity].
      * intros i b prev Hb Hprev. apply (Hnext (S i) b prev); assumption.
Qed.

Lemma linked_chain_links (blocks : list Block) :
  linked blocks <-> chain_links None blocks.
Proof. unfold linked. now rewrite chain_links_lookup. Qed.

(** X1. The validator returns an empty report exactly when every stored
    block passes its own validation, the first block names no previous hash
    and every later block names the hash of the block before it. *)
Theorem validateChain_empty_iff (self : Blockchain) :
  fst (validateChain self) = Resolve []
  <-> all_sealed (chain self) /\ linked (chain self).
Proof.
  rewrite validateChain_run, validateChain_loop_report. simpl.
  rewrite linked_chain_links, <- full_report_nil.
  split; [intros [= Hnil]; exact Hnil|intros ->; reflexivity].
Qed.

(** *** Sealing *)

(** A block that arrives with no hash leaves [_addBlock] passing its own
    validation: the digest stored on it is the digest of the sealed block
    with the hash cleared. *)
Lemma _addBlock_seals (now : Z) (block blk : Block)
    (self self' : Blockchain) :
  BlockClass.hash block = None ->
  _addBlock now block self = (Resolve blk, self') ->
  BlockClass.validate blk = true.
Proof.
  intros Hfresh. destruct block as [h n d t p]. simpl in Hfresh. subst h.
  unfold _addBlock, bind. rewrite validateChain_run.
  destruct (negb (Nat.eqb
                    (length (validateChain_loop (chain self) None [])) 0));
    [discriminate|].
  unfold this.
  destruct (height self =? -1); simpl.
  - intros [= <- _]. unfold BlockClass.validate. simpl.
    apply String.eqb_refl.
  - destruct (at_index (chain self) (height self - 1)) as [prev|]; simpl;
      [|discriminate].
    destruct (JS.truthy_string (BlockClass.hash prev)); simpl; [|discriminate].
    intros [= <- _]. unfold BlockClass.validate. simpl.
    apply String.eqb_refl.
Qed.

Lemma reachable_sealed (self : Blockchain) :
  reachable self -> all_sealed (chain self).
Proof.
  induction 1 as [|op self _ IH].
  - constructor.
  - destruct (run_cases op self) as [->|(now & data & blk & Hrun)];
      [exact IH|].
    pose proof (_addBlock_seals now (BlockClass.new data) blk self
                  (run op self) eq_refl Hrun) as Hvalid.
    destruct (_addBlock_inv _ _ _ _ _ Hrun)
      as [(e & Hres & _)|(b & Hres & -> & _)]; [discriminate Hres|].
    injection Hres as <-. simpl.
    apply Forall_app. split; [exact IH|]. repeat constructor. exact Hvalid.
Qed.

Lemma reachable_report_nil (self : Blockchain) :
  reachable self -> validateChain_loop (chain self) None [] = [].
Proof.
  intros Hreach.
  pose proof (reachable_sealed self Hreach) as Hsealed.
  destruct (reachable_consistent self Hreach)
    as [[Hnil _]|(_ & Hlinked & _)].
  - rewrite Hnil. reflexivity.
  - rewrite validateChain_loop_report. simpl.
    apply full_report_nil. split; [exact Hsealed|].
    now apply linked_chain_links.
Qed.

(** X2. In every reachable state the validator finds nothing: the report is
    empty and the ledger is left as it was. *)
Theorem reachable_chain_is_valid (self : Blockchain) :
  reachable self -> validateChain self = (Resolve [], self).
Proof.
  intros Hreach. rewrite validateChain_run.
  now rewrite (reachable_report_nil self Hreach).
Qed.

(** The last block of a reachable chain carries a digest as its hash. *)
Lemma reachable_last_block (self : Blockchain) :
  reachable self -> chain self <> [] ->
  exists prev digest,
    at_index (chain self) (height self - 1) = Some prev
    /\ BlockClass.hash prev = Some (SHA256 digest).
Proof.
  intros Hreach Hsettled.
  pose proof (reachable_sealed self Hreach) as Hsealed.
  destruct (reachable_settled self Hreach Hsettled) as (Hlen & _ & _ & Hne).
  unfold height_is_length in Hlen. unfold at_index. rewrite Hlen.
  destruct (chain self) as [|x rest] eqn:Hchain; [contradiction|].
  destruct (Z.ltb_spec (Z.of_nat (length (x :: rest)) - 1) 0) as [Hneg|_];
    [simpl in Hneg; lia|].
  destruct (lookup_lt_is_Some_2 (x :: rest)
              (Z.to_nat (Z.of_nat (length (x :: rest)) - 1)))
    as [prev Hprev]; [simpl; lia|].
  exists prev. unfold all_sealed in Hsealed.
  rewrite Forall_forall in Hsealed.
  assert (BlockClass.validate prev = true) as Hvalid.
  { apply Hsealed. apply list_elem_of_lookup. eauto. }
  unfold BlockClass.validate in Hvalid.
  destruct (BlockClass.hash prev) as [h|]; [|discriminate Hvalid].
  apply String.eqb_eq in Hvalid. eexists. split; [exact Hprev|].
  rewrite Hvalid. reflexivity.
Qed.

(** Every way [_addBlock] can go, with the condition that selects it. *)
Lemma _addBlock_outcome (now : Z) (block : Block) (self : Blockchain) :
  (validateChain_loop (chain self) None [] <> []
   /\ _addBlock now block self = (Reject ChainCorruptError, self))
  \/ (validateChain_loop (chain self) None [] = []
      /\ height self <> -1
      /\ JS.truthy_string (previous_hash self) = false
      /\ _addBlock now block self = (Reject MissingPreviousHashError, self))
  \/ (validateChain_loop (chain self) None [] = []
      /\ (height self = -1 \/ JS.truthy_string (previous_hash self) = true)
      /\ exists blk self', _addBlock now block self = (Resolve blk, self')).
Proof.
  unfold _addBlock, bind, previous_hash. rewrite validateChain_run.
  destruct (negb (Nat.eqb (length (validateChain_loop (chain self) None [])) 0))
    eqn:Herrors.
  - left. split; [|reflexivity].
    intros Hnil. rewrite Hnil in Herrors. discriminate Herrors.
  - apply length_eqb_0 in Herrors. right. unfold this.
    destruct (Z.eqb_spec (height self) (-1)) as [Hgen|Hgen]; simpl.
    + right. split; [exact Herrors|]. split; [now left|]. eauto.
    + destruct (JS.truthy_string _) eqn:Htruthy; simpl.
      * right. split; [exact Herrors|]. split; [now right|]. eauto.
      * left. repeat split; assumption.
Qed.

Lemma reachable_addBlock_resolves (now : Z) (block : Block)
    (self : Blockchain) :
  (forall s, SHA256 s <> EmptyString) ->
  reachable self ->
  exists blk self', _addBlock now block self = (Resolve blk, self').
Proof.
  intros Hdigest Hreach.
  pose proof (reachable_report_nil self Hreach) as Hclean.
  destruct (_addBlock_outcome now block self)
    as [[Hbad _]|[(_ & Hgen & Hfalsy & _)|(_ & _ & Hres)]];
    [contradiction| |exact Hres].
  destruct (reachable_consistent self Hreach) as [[_ Hminus]|Hcons];
    [contradiction|].
  destruct Hcons as (_ & _ & _ & Hne).
  destruct (reachable_last_block self Hreach Hne) as (prev & d & Hprev & Hhash).
  unfold previous_hash in Hfalsy. rewrite Hprev, Hhash in Hfalsy.
  specialize (Hdigest d). simpl in Hfalsy.
  destruct (SHA256 d); [contradiction|discriminate Hfalsy].
Qed.

(** X3. On a reachable ledger, with a digest function that never returns the
    empty string, [_addBlock] on a freshly constructed block always
    succeeds. *)
Theorem addBlock_succeeds_when_reachable (now : Z) (data : BData Star)
    (self : Blockchain) :
  (forall s, SHA256 s <> EmptyString) ->
  reachable self ->
  exists blk self',
    _addBlock now (BlockClass.new data) self = (Resolve blk, self').
Proof.
  intros Hdigest Hreach. now apply reachable_addBlock_resolves.
Qed.

(** X4. With [block.validate()] total, as modelled, [_addBlock] rejects
    with the chain-corrupt error exactly when the validator reports
    something; it rejects with the previous-hash error exactly when the
    report is empty, the counter is not -1 and [chain[height - 1]?.hash] is
    undefined, null or empty; it rejects in no other way; and it resolves
    exactly when the report is empty and the counter is -1 or that hash is
    a non-empty string.  Every rejection hands the ledger back untouched. *)
Theorem addBlock_rejections (now : Z) (block : Block) (self : Blockchain) :
  (_addBlock now block self = (Reject ChainCorruptError, self)
   <-> fst (validateChain self) <> Resolve [])
  /\ (_addBlock now block self = (Reject MissingPreviousHashError, self)
      <-> fst (validateChain self) = Resolve []
          /\ height self <> -1
          /\ JS.truthy_string (previous_hash self) = false)
  /\ (forall e self',
        _addBlock now block self = (Reject e, self') ->
        self' = self
        /\ (e = ChainCorruptError \/ e = MissingPreviousHashError))
  /\ ((exists blk self', _addBlock now block self = (Resolve blk, self'))
      <-> fst (validateChain self) = Resolve []
          /\ (height self = -1
              \/ JS.truthy_string (previous_hash self) = true)).
Proof.
  rewrite validateChain_run. simpl.
  assert (forall l : list string, Resolve l = Resolve [] <-> l = [])
    as Hreport by (intros l; split; [intros [= ->]|intros ->]; reflexivity).
  rewrite !Hreport.
  destruct (_addBlock_outcome now block self)
    as [[Hbad ->]|[(Hclean & Hgen & Hfalsy & ->)|(Hclean & Hok & Hres)]].
  - split; [split; [intros _; exact Hbad|reflexivity]|].
    split; [split; [discriminate|intros (Hclean & _); contradiction]|].
    split.
    + intros e self' [= <- <-]. split; [reflexivity|now left].
    + split; [intros (blk & self' & Hrun); discriminate Hrun|].
      intros [Hclean _]. contradiction.
  - split; [split; [discriminate|intros Hbad; contradiction]|].
    split; [split; [intros _; repeat split; assumption|reflexivity]|].
    split.
    + intros e self' [= <- <-]. split; [reflexivity|now right].
    + split; [intros (blk & self' & Hrun); discriminate Hrun|].
      intros [_ [Hminus|Htruthy]]; [contradiction|congruence].
  - destruct Hres as (blk & self' & Hrun). rewrite Hrun.
    split; [split; [discriminate|intros Hbad; contradiction]|].
    split.
    { split; [discriminate|]. intros (_ & Hgen & Hfalsy).
      destruct Hok as [Hminus|Htruthy]; [contradiction|congruence]. }
    split; [discriminate|].
    split; [intros _; split; assumption|intros _; eauto].
Qed.

End ValidityProofs.

(** ** The ledger as its callers see it *)

Section LedgerProofs.
Context `{ext : Externals}.

(** X5. [new Blockchain()] hands out an empty chain with the counter at
    -1.  Whatever the clock reads, once the [initializeChain] it started has
    completed on that object the call has resolved, the counter is 1 and the
    chain holds exactly one block: height 0, no previous hash, the encoded
    genesis payload as body, the sealing time in seconds as time, and a
    hash that passes the block's own validation. *)
Theorem constructor_fresh_ledger (now : Z) :
  chain constructor = [] /\ height constructor = -1
  /\ exists genesis,
       initializeChain now constructor
       = (Resolve tt, mkBlockchain [genesis] 1)
       /\ BlockClass.height genesis = 0
       /\ BlockClass.previousBlockHash genesis = None
       /\ BlockClass.body genesis = encode_body (GenesisData "Genesis Block")
       /\ BlockClass.time genesis = JS.seconds_string now
       /\ BlockClass.validate genesis = true.
Proof.
  split; [reflexivity|]. split; [reflexivity|].
  eexists. split.
  { unfold initializeChain, _addBlock, validateChain, bind, this, ret,
      chain_push, height_assign, constructor.
    simpl. reflexivity. }
  repeat split.
  unfold BlockClass.validate. simpl. apply String.eqb_refl.
Qed.

Lemma reachable_height_pos (self : Blockchain) :
  reachable self -> chain self <> [] -> 1 <= height self.
Proof.
  intros Hreach Hsettled.
  destruct (reachable_settled self Hreach Hsettled) as (Hlen & _ & _ & Hne).
  unfold height_is_length in Hlen.
  destruct (chain self); [contradiction|]. simpl in Hlen. lia.
Qed.

(** X6. Once a reachable ledger holds a block, [initializeChain] does
    nothing: it resolves, appends no further genesis block and leaves chain
    and height as they were. *)
Theorem initializeChain_idempotent (now : Z) (self : Blockchain) :
  reachable self -> chain self <> [] ->
  initializeChain now self = (Resolve tt, self).
Proof.
  intros Hreach Hsettled.
  pose proof (reachable_height_pos self Hreach Hsettled) as Hpos.
  unfold initializeChain, bind, this.
  destruct (Z.eqb_spec (height self) (-1)); [lia|reflexivity].
Qed.

(** X7. The ledger is append-only: from any state, any operation leaves the
    stored blocks in place, unchanged and in order, and adds at most one
    block behind them. *)
Theorem run_is_append_only (op : Op) (self : Blockchain) :
  exists added,
    chain (run op self) = chain self ++ added /\ (length added <= 1)%nat.
Proof.
  destruct (run_cases op self) as [->|(now & block & blk & Hrun)].
  - exists []. rewrite app_nil_r. split; [reflexivity|simpl; lia].
  - destruct (_addBlock_inv _ _ _ _ _ Hrun)
      as [(e & Hres & _)|(b & _ & -> & _)]; [discriminate Hres|].
    exists [b]. split; [reflexivity|simpl; lia].
Qed.

(** The only way [submitStar] resolves. *)
Lemma submitStar_resolve_inv (now sealedAt : Z)
    (address message signature : string) (star : Star)
    (self self' : Blockchain) (blk : Block) :
  submitStar now sealedAt address message signature star self
  = (Resolve blk, self') ->
  JS.gt (elapsed now message) 300 = false
  /\ bitcoinMessage_verify message address signature = Resolve true
  /\ _addBlock sealedAt (BlockClass.new (StarData star address)) self
     = (Resolve blk, self').
Proof.
  rewrite submitStar_unfold.
  destruct (JS.gt (elapsed now message) 300); [discriminate|].
  unfold verify_and_append, try_catch, throw.
  destruct (bitcoinMessage_verify message address signature) as [[|]|e];
    try discriminate.
  destruct (_addBlock sealedAt _ self) as [[b|e] s]; [|discriminate].
  intros [= <- <-]. repeat split.
Qed.

(** X8. A rejected [submitStar] leaves the ledger exactly as it was,
    whichever check refused it. *)
Theorem submitStar_failure_is_atomic (now sealedAt : Z)
    (address message signature : string) (star : Star)
    (self self' : Blockchain) (e : exn) :
  submitStar now sealedAt address message signature star self
  = (Reject e, self') ->
  self' = self.
Proof.
  rewrite submitStar_unfold.
  destruct (JS.gt (elapsed now message) 300); [now intros [= _ <-]|].
  unfold verify_and_append, try_catch, throw.
  destruct (bitcoinMessage_verify message address signature) as [[|]|e'];
    try (now intros [= _ <-]).
  destruct (_addBlock sealedAt _ self) as [[b|e'] s] eqn:Hrun; [discriminate|].
  intros [= _ <-].
  destruct (_addBlock_inv _ _ _ _ _ Hrun) as [(e'' & _ & ->)|(b & Hres & _)];
    [reflexivity|discriminate Hres].
Qed.

(** X9. A valid, timely proof submitted against a ledger the validator
    objects to is refused; the error that reaches the caller is not the
    append's own but a new one whose message is the append's error printed
    as a string, and the ledger is untouched. *)
Theorem submitStar_on_corrupt_chain (now sealedAt : Z)
    (address message signature : string) (star : Star) (self : Blockchain) :
  JS.gt (elapsed now message) 300 = false ->
  bitcoinMessage_verify message address signature = Resolve true ->
  fst (validateChain self) <> Resolve [] ->
  submitStar now sealedAt address message signature star self
  = (Reject (Error "Error: Cannot add block because chain has errors."), self).
Proof.
  intros Htime Hvalid Hbad. rewrite submitStar_unfold, Htime.
  unfold verify_and_append. rewrite Hvalid.
  unfold try_catch. rewrite _addBlock_corrupt; [reflexivity|].
  intros Hnil. apply Hbad. rewrite validateChain_run, Hnil. reflexivity.
Qed.

(** X10. On a reachable ledger, with a digest function that never returns
    the empty string, [submitStar] resolves exactly when the elapsed time is
    not above 300 seconds (or is not a number) and the signature verifies. *)
Theorem submitStar_resolves_iff (now sealedAt : Z)
    (address message signature : string) (star : Star) (self : Blockchain) :
  (forall s, SHA256 s <> EmptyString) ->
  reachable self ->
  (exists blk self',
      submitStar now sealedAt address message signature star self
      = (Resolve blk, self'))
  <-> JS.gt (elapsed now message) 300 = false
      /\ bitcoinMessage_verify message address signature = Resolve true.
Proof.
  intros Hdigest Hreach. split.
  - intros (blk & self' & Hrun).
    apply submitStar_resolve_inv in Hrun as (Htime & Hvalid & _). now split.
  - intros [Htime Hvalid].
    destruct (reachable_addBlock_resolves sealedAt
                (BlockClass.new (StarData star address)) self Hdigest Hreach)
      as (blk & self' & Hrun).
    exists blk, self'. rewrite submitStar_unfold, Htime.
    unfold verify_and_append, try_catch. rewrite Hvalid, Hrun. reflexivity.
Qed.

(** X11. When [submitStar] resolves on a reachable ledger that already
    holds a block, the block it returns sits last in the chain behind all
    the former blocks, names the former last block's hash, carries the
    encoded [{ star, address }] payload and the sealing time; afterwards
    [getChainHeight] answers one more than before and [getBlockByHeight] at
    the former height answers that block. *)
Theorem submitStar_success (now sealedAt : Z)
    (address message signature : string) (star : Star)
    (self self' : Blockchain) (blk : Block) :
  reachable self -> chain self <> [] ->
  submitStar now sealedAt address message signature star self
  = (Resolve blk, self') ->
  chain self' = chain self ++ [blk]
  /\ BlockClass.previousBlockHash blk = last_hash (chain self)
  /\ BlockClass.body blk = encode_body (StarData star address)
  /\ BlockClass.time blk = JS.seconds_string sealedAt
  /\ getChainHeight self' = (Resolve (height self + 1), self')
  /\ getBlockByHeight (height self) self' = (Resolve (Some blk), self').
Proof.
  intros Hreach Hsettled Hrun.
  assert (reachable self') as Hreach'.
  { replace self'
      with (run (SubmitStar now sealedAt address message signature star) self)
      by (simpl; now rewrite Hrun).
    now apply reachable_run. }
  destruct (reachable_settled self Hreach Hsettled) as (Hlen & _).
  pose proof (reachable_height_pos self Hreach Hsettled) as Hpos.
  unfold height_is_length in Hlen.
  apply submitStar_resolve_inv in Hrun as (_ & _ & Hrun).
  destruct (_addBlock_inv _ _ _ _ _ Hrun)
    as [(e & Hres & _)|(b & Hres & Hself' & _ & _ & Hbody & Htime & _ & Hprev)];
    [discriminate Hres|].
  injection Hres as <-.
  assert (chain self' <> []) as Hsettled'.
  { rewrite Hself'. simpl. intros Hnil.
    apply app_eq_nil in Hnil as [_ Hnil]. discriminate Hnil. }
  destruct (reachable_settled self' Hreach' Hsettled') as (_ & _ & Hidx & _).
  subst self'. simpl in *.
  destruct Hprev as (prev & Hat & _ & Hhash); [lia|].
  rewrite Hlen in Hat. apply at_index_last in Hat.
  repeat split.
  - unfold last_hash. rewrite Hat. exact Hhash.
  - exact Hbody.
  - exact Htime.
  - unfold getChainHeight, bind, this, ret. simpl.
    rewrite length_app. simpl. do 2 f_equal. lia.
  - rewrite Hlen. apply getBlockByHeight_indexed; [exact Hidx|].
    simpl. rewrite lookup_app_r by lia. now rewrite Nat.sub_diag.
Qed.

(** X12. [getBlockByHash] resolves exactly when some stored block carries
    the hash; the block it resolves with is a stored block carrying that
    hash, and the ledger is not touched. *)
Theorem getBlockByHash_found (hash : string) (self : Blockchain) :
  (forall b self',
      getBlockByHash hash self = (Resolve b, self') ->
      self' = self /\ In b (chain self) /\ BlockClass.hash b = Some hash)
  /\ ((exists b, In b (chain self) /\ BlockClass.hash b = Some hash) ->
      exists b, getBlockByHash hash self = (Resolve b, self)).
Proof.
  unfold getBlockByHash, bind, this, ret, throw.
  set (matches := fun b : Block =>
                    match BlockClass.hash b with
                    | Some h => String.eqb h hash
                    | None => false
                    end).
  split.
  - intros b self'. destruct (find matches (chain self)) as [x|] eqn:Hfind;
      [|discriminate].
    intros [= <- <-]. apply find_some in Hfind as [Hin Hmatch].
    unfold matches in Hmatch.
    destruct (BlockClass.hash x) as [h|]; [|discriminate Hmatch].
    apply String.eqb_eq in Hmatch. subst h. repeat split. exact Hin.
  - intros (b & Hin & Hhash).
    destruct (find matches (chain self)) as [x|] eqn:Hfind; [eauto|].
    pose proof (find_none _ _ Hfind b Hin) as Hmiss.
    unfold matches in Hmiss. rewrite Hhash, String.eqb_refl in Hmiss.
    discriminate Hmiss.
Qed.

End LedgerProofs.

(** ** Stars by owner *)

Section StarProofs.
Context `{ext : Externals}.

(** The loop of [getStarsByWalletAddress] pushes, block by block, what
    [owned_star] keeps. *)
Lemma stars_loop (address : string) (blocks : list Block)
    (stars : list (BData Star)) :
  fold_left
    (fun stars block =>
       match BlockClass.getBData block with
       | Some (StarData star owner) =>
           if String.eqb owner address && star_truthy star
           then stars ++ [StarData star owner]
           else stars
       | _ => stars
       end)
    blocks stars
  = stars ++ omap (owned_star address) blocks.
Proof.
  revert stars. induction blocks as [|b rest IH]; intros stars; simpl.
  - now rewrite app_nil_r.
  - rewrite IH. unfold owned_star.
    destruct (BlockClass.getBData b) as [[data|star owner]|];
      try reflexivity.
    destruct (String.eqb owner address && star_truthy star);
      [now rewrite <- app_assoc|reflexivity].
Qed.

Lemma owned_star_Some (address : string) (b : Block) (d : BData Star) :
  owned_star address b = Some d ->
  BlockClass.getBData b = Some d
  /\ exists star, d = StarData star address /\ star_truthy star = true.
Proof.
  unfold owned_star.
  destruct (BlockClass.getBData b) as [[data|star owner]|]; try discriminate.
  destruct (String.eqb_spec owner address) as [->|]; [|discriminate].
  destruct (star_truthy star) eqn:Htruthy; [|discriminate].
  intros [= <-]. split; [reflexivity|]. eauto.
Qed.

(** X13. [getStarsByWalletAddress] leaves the ledger alone and resolves
    with, in chain order, the decoded bodies of the blocks that carry the
    address asked for and a truthy star.  Every record it returns is a star
    record of that address, decoded from a stored block; no genesis payload
    and no other owner's star is ever among them. *)
Theorem getStarsByWalletAddress_spec (address : string) (self : Blockchain) :
  getStarsByWalletAddress address self
  = (Resolve (omap (owned_star address) (chain self)), self)
  /\ (forall d,
        In d (omap (owned_star address) (chain self)) ->
        (exists star, d = StarData star address /\ star_truthy star = true)
        /\ (exists b, In b (chain self) /\ BlockClass.getBData b = Some d)).
Proof.
  split.
  - unfold getStarsByWalletAddress, bind, this, ret.
    now rewrite stars_loop.
  - intros d Hd. apply list_elem_of_In, list_elem_of_omap in Hd
      as (b & Hb & Hkeep).
    apply owned_star_Some in Hkeep as [Hdecode Hstar].
    split; [exact Hstar|]. exists b. split; [|exact Hdecode].
    now apply list_elem_of_In.
Qed.

(** X14. Registering a star shows up under its owner: if the body codec
    reads back what it wrote for this payload and the star is truthy, then
    after a successful [submitStar] the stars of that address are the stars
    it had before followed by the new record. *)
Theorem submitStar_registers_star (now sealedAt : Z)
    (address message signature : string) (star : Star)
    (self self' : Blockchain) (blk : Block) :
  decode_body (encode_body (StarData star address))
  = Some (StarData star address) ->
  star_truthy star = true ->
  submitStar now sealedAt address message signature star self
  = (Resolve blk, self') ->
  exists before,
    getStarsByWalletAddress address self = (Resolve before, self)
    /\ getStarsByWalletAddress address self'
       = (Resolve (before ++ [StarData star address]), self').
Proof.
  intros Hcodec Htruthy Hrun.
  apply submitStar_resolve_inv in Hrun as (_ & _ & Hrun).
  destruct (_addBlock_inv _ _ _ _ _ Hrun)
    as [(e & Hres & _)|(b & Hres & -> & _ & _ & Hbody & _)];
    [discriminate Hres|].
  injection Hres as <-.
  exists (omap (owned_star address) (chain self)).
  unfold getStarsByWalletAddress, bind, this, ret. simpl.
  rewrite !stars_loop. simpl. split; [reflexivity|].
  rewrite omap_app. simpl. unfold owned_star at 2, BlockClass.getBData.
  rewrite Hbody. simpl. rewrite Hcodec, String.eqb_refl, Htruthy. reflexivity.
Qed.

End StarProofs.

(** ** A challenge issued, then submitted *)

Section ChallengeProofs.
Context `{ext : Externals}.

Lemma colon_append (s : string) : ":" +:+ s = String ":" s.
Proof. reflexivity. Qed.

(** Up to its first colon a string is the first piece of its split. *)
Lemma split_no_colon_prefix (a rest : string) :
  no_colon a = true ->
  JS.split ":" (a +:+ String ":" rest) = a :: JS.split ":" rest.
Proof.
  induction a as [|c a IH]; intros Hclean.
  - reflexivity.
  - simpl in Hclean. apply andb_true_iff in Hclean as [Hc Hclean].
    apply negb_true_iff in Hc.
    rewrite JSFacts.append_cons. simpl. rewrite Hc, (IH Hclean). reflexivity.
Qed.

Lemma all_decimal_no_colon (s : string) :
  JS.all_decimal s -> no_colon s = true.
Proof.
  induction s as [|c s IH]; intros Hs; [reflexivity|].
  destruct Hs as [Hc Hs]. simpl. rewrite (IH Hs), andb_true_r.
  apply negb_true_iff. destruct (Ascii.eqb_spec c ":") as [->|]; [|reflexivity].
  unfold JS.is_decimal in Hc. vm_compute in Hc. destruct Hc as [_ Hc].
  now elim Hc.
Qed.

Lemma toString_decimal (n : Z) : 0 < n -> JS.all_decimal (JS.toString n).
Proof.
  intros Hn. unfold JS.toString. rewrite JSFacts.pretty_Z_nonneg by exact Hn.
  apply JSFacts.pretty_N_go_decimal.
Qed.

(** The timestamp [submitStar] reads is what stands between the first and
    the second colon of the message. *)
Lemma embedded_timestamp_second_piece (a piece rest : string) :
  no_colon a = true -> no_colon piece = true ->
  embedded_timestamp (a +:+ ":" +:+ piece +:+ ":" +:+ rest)
  = JS.parseInt piece.
Proof.
  intros Ha Hpiece. unfold embedded_timestamp.
  rewrite !colon_append, (split_no_colon_prefix a _ Ha).
  rewrite (split_no_colon_prefix piece _ Hpiece). reflexivity.
Qed.

(** X15. A challenge issued for an address that holds no colon, with the
    clock past its first second, reads back: [submitStar] finds in it the
    second at which it was issued, so the elapsed time it computes at a later
    clock reading is the difference of the two readings in whole seconds,
    and the time check refuses exactly when that difference is above 300. *)
Theorem issued_challenge_round_trip (issuedAt now : Z) (address : string)
    (self : Blockchain) (message : string) :
  1000 <= issuedAt -> 1000 <= now ->
  no_colon address = true ->
  fst (requestMessageOwnershipVerification issuedAt address self)
  = Resolve message ->
  embedded_timestamp message = Some (issuedAt / 1000)
  /\ elapsed now message = Some (now / 1000 - issuedAt / 1000)
  /\ JS.gt (elapsed now message) 300
     = (300 <? now / 1000 - issuedAt / 1000).
Proof.
  intros Hissued Hnow Hclean.
  unfold requestMessageOwnershipVerification, ret. simpl. intros [= <-].
  assert (0 < issuedAt / 1000) as Hpos by (apply Z.div_str_pos; lia).
  assert (embedded_timestamp
            (address +:+ ":" +:+ JS.seconds_string issuedAt
               +:+ ":starRegistry")
          = Some (issuedAt / 1000)) as Hstamp.
  { rewrite JSFacts.seconds_string_div by exact Hissued.
    change ":starRegistry" with (":" +:+ "starRegistry").
    rewrite embedded_timestamp_second_piece.
    - apply JSFacts.parseInt_toString. lia.
    - exact Hclean.
    - apply all_decimal_no_colon, toString_decimal. exact Hpos. }
  split; [exact Hstamp|].
  rewrite (elapsed_seconds now (issuedAt / 1000) _ Hnow Hstamp).
  split; reflexivity.
Qed.

End ChallengeProofs.

(** ** A broken link *)

Section LinkProofs.
Context `{ext : Externals}.

Lemma validate_after_edit (b b' : Block) :
  BlockClass.validate b = true ->
  BlockClass.hash b' = BlockClass.hash b ->
  SHA256 (JSON_stringify (BlockClass.set_hash b' None))
  <> SHA256 (JSON_stringify (BlockClass.set_hash b None)) ->
  BlockClass.validate b' = false.
Proof.
  unfold BlockClass.validate. intros Hvalid ->.
  destruct (BlockClass.hash b) as [h|]; [|discriminate].
  intros Hdiff. apply String.eqb_eq in Hvalid. subst h.
  apply String.eqb_neq. congruence.
Qed.

Lemma full_report_relinked (blocks : list Block) (prevHash : option string)
    (i : nat) (b : Block) (p' : option string) :
  full_report prevHash blocks = [] ->
  blocks !! i = Some b ->
  p' <> BlockClass.previousBlockHash b ->
  BlockClass.validate (BlockClass.set_previousBlockHash b p') = false ->
  full_report prevHash
    (<[i := BlockClass.set_previousBlockHash b p']> blocks)
  = [tampered_message b; linkage_message b].
Proof.
  revert prevHash i.
  induction blocks as [|x rest IH]; intros prevHash i Hclean Hi Hp Hbad.
  - discriminate Hi.
  - simpl in Hclean. apply app_eq_nil in Hclean as [Hx Hrest].
    destruct i as [|i]; simpl in *.
    + injection Hi as ->. rewrite Hrest, app_nil_r.
      apply block_violations_nil in Hx as [_ Hprev].
      unfold block_violations. rewrite Hbad. simpl.
      destruct (strict_neq p' prevHash) eqn:Hneq; [reflexivity|].
      apply strict_neq_false in Hneq. congruence.
    + rewrite Hx. simpl. now apply IH.
Qed.

(** X16. Take a chain the validator finds no fault with and overwrite one
    stored block's previous hash with a different value, leaving its hash
    alone (the digest of the edited block differing from the original's).
    The validator then returns exactly two violations, both naming that
    block's stored hash: the tamper report first, the linkage report
    second. *)
Theorem validateChain_reports_broken_link (self : Blockchain) (i : nat)
    (b : Block) (p' : option string) :
  fst (validateChain self) = Resolve [] ->
  chain self !! i = Some b ->
  p' <> BlockClass.previousBlockHash b ->
  SHA256 (JSON_stringify
            (BlockClass.set_hash (BlockClass.set_previousBlockHash b p') None))
  <> SHA256 (JSON_stringify (BlockClass.set_hash b None)) ->
  exists h,
    BlockClass.hash b = Some h
    /\ fst (validateChain
              (mkBlockchain
                 (<[i := BlockClass.set_previousBlockHash b p']> (chain self))
                 (height self)))
       = Resolve
           ["Block " +:+ h +:+ " was tampered.";
            "Previous block hash doesnt match with " +:+ h
              +:+ " block's previous hash property."].
Proof.
  rewrite !validateChain_run. simpl.
  rewrite !validateChain_loop_report. simpl.
  intros [= Hclean] Hi Hp Hdiff.
  assert (BlockClass.validate b = true) as Hvalid.
  { apply full_report_nil in Hclean as [Hsealed _].
    unfold all_sealed in Hsealed. rewrite Forall_forall in Hsealed.
    apply Hsealed, list_elem_of_lookup. eauto. }
  pose proof (validate_after_edit b (BlockClass.set_previousBlockHash b p')
                Hvalid eq_refl Hdiff) as Hbad.
  unfold BlockClass.validate in Hvalid.
  destruct (BlockClass.hash b) as [h|] eqn:Hh; [|discriminate Hvalid].
  exists h. split; [reflexivity|].
  rewrite (full_report_relinked _ _ _ _ _ Hclean Hi Hp Hbad).
  unfold tampered_message, linkage_message. rewrite Hh. reflexivity.
Qed.

End LinkProofs.

(** ** These properties at work on the demo ledgers *)

Lemma validateChain_empty_iff_witness :
  fst (validateChain (ext := Demo.externals) Demo.registered) = Resolve [].
Proof.
  apply (validateChain_empty_iff (ext := Demo.externals) Demo.registered).
  rewrite demo_registered_chain. split.
  - unfold all_sealed. repeat constructor.
  - split.
    + intros b [= <-]. reflexivity.
    + intros [|i] b prev Hb Hprev.
      * injection Hb as <-. injection Hprev as <-. reflexivity.
      * destruct i; discriminate Hb.
Defined.

Lemma reachable_chain_is_valid_witness :
  validateChain (ext := Demo.externals) Demo.registered
  = (Resolve [], Demo.registered).
Proof.
  apply (reachable_chain_is_valid (ext := Demo.externals) Demo.registered).
  apply reachable_run, reachable_initialized.
Defined.

Lemma addBlock_succeeds_when_reachable_witness :
  exists blk self',
    _addBlock (ext := Demo.externals) 1790000200123 Demo.late_candidate
      Demo.registered
    = (Resolve blk, self').
Proof.
  apply (addBlock_succeeds_when_reachable (ext := Demo.externals)
           1790000200123 (GenesisData "late") Demo.registered).
  - intros s Hs. change (String "#" s = EmptyString) in Hs. discriminate Hs.
  - apply reachable_run, reachable_initialized.
Defined.

Lemma addBlock_rejections_witness :
  _addBlock (ext := Demo.externals) 1790000100123 Demo.late_candidate
    Demo.tampered
  = (Reject ChainCorruptError, Demo.tampered)
  /\ exists blk self',
       _addBlock (ext := Demo.externals) 1790000100123 Demo.late_candidate
         Demo.fresh
       = (Resolve blk, self').
Proof.
  split.
  - apply (addBlock_rejections (ext := Demo.externals) 1790000100123
             Demo.late_candidate Demo.tampered).
    vm_compute. discriminate.
  - apply (addBlock_rejections (ext := Demo.externals) 1790000100123
             Demo.late_candidate Demo.fresh).
    split; [reflexivity|]. right. reflexivity.
Defined.

Lemma initializeChain_idempotent_witness :
  initializeChain (ext := Demo.externals) 1790000200123 Demo.registered
  = (Resolve tt, Demo.registered).
Proof.
  apply (initializeChain_idempotent (ext := Demo.externals)).
  - apply reachable_run, reachable_initialized.
  - rewrite demo_registered_chain. discriminate.
Defined.

Lemma submitStar_failure_is_atomic_witness :
  snd (submitStar (ext := Demo.externals) 1790000100123 1790000100456
         "addr" Demo.challenge "forged" "star" Demo.registered)
  = Demo.registered.
Proof.
  apply (submitStar_failure_is_atomic (ext := Demo.externals)
           1790000100123 1790000100456 "addr" Demo.challenge "forged" "star"
           Demo.registered _ SignatureInvalidError).
  reflexivity.
Defined.

Lemma submitStar_on_corrupt_chain_witness :
  submitStar (ext := Demo.externals) 1790000100123 1790000100456
    "addr" Demo.challenge "ok" "star" Demo.tampered
  = (Reject (Error "Error: Cannot add block because chain has errors."),
     Demo.tampered).
Proof.
  apply (submitStar_on_corrupt_chain (ext := Demo.externals)).
  - reflexivity.
  - reflexivity.
  - vm_compute. discriminate.
Defined.

Lemma submitStar_resolves_iff_witness :
  exists blk self',
    submitStar (ext := Demo.externals) 1790000100123 1790000100456
      "addr" Demo.challenge "ok" "star" Demo.registered
    = (Resolve blk, self').
Proof.
  apply (submitStar_resolves_iff (ext := Demo.externals)
           1790000100123 1790000100456 "addr" Demo.challenge "ok" "star"
           Demo.registered).
  - intros s Hs. change (String "#" s = EmptyString) in Hs. discriminate Hs.
  - apply reachable_run, reachable_initialized.
  - split; reflexivity.
Defined.

Lemma submitStar_success_witness :
  chain Demo.registered = chain Demo.fresh ++ [Demo.star_block]
  /\ BlockClass.previousBlockHash Demo.star_block
     = last_hash (chain Demo.fresh)
  /\ getChainHeight Demo.registered
     = (Resolve (height Demo.fresh + 1), Demo.registered)
  /\ getBlockByHeight (height Demo.fresh) Demo.registered
     = (Resolve (Some Demo.star_block), Demo.registered).
Proof.
  destruct (submitStar_success (ext := Demo.externals)
              1790000100123 1790000100456 "addr" Demo.challenge "ok" "star"
              Demo.fresh Demo.registered Demo.star_block)
    as (Hchain & Hprev & _ & _ & Hcount & Hfind).
  - apply reachable_initialized.
  - rewrite demo_fresh_chain. discriminate.
  - reflexivity.
  - repeat split; assumption.
Defined.

Lemma getBlockByHash_found_witness :
  exists b, getBlockByHash Demo.genesis_hash Demo.registered
            = (Resolve b, Demo.registered).
Proof.
  apply (getBlockByHash_found Demo.genesis_hash Demo.registered).
  exists Demo.genesis. rewrite demo_registered_chain.
  split; [left; reflexivity|reflexivity].
Defined.

Lemma getStarsByWalletAddress_spec_witness :
  getStarsByWalletAddress (ext := Archive.externals) "addr" Archive.registered
  = (Resolve [StarData "star" "addr"], Archive.registered).
Proof.
  exact (proj1 (getStarsByWalletAddress_spec (ext := Archive.externals)
                  "addr" Archive.registered)).
Defined.

Lemma submitStar_registers_star_witness :
  exists before,
    getStarsByWalletAddress (ext := Archive.externals) "addr" Archive.fresh
    = (Resolve before, Archive.fresh)
    /\ getStarsByWalletAddress (ext := Archive.externals) "addr"
         Archive.registered
       = (Resolve (before ++ [StarData "star" "addr"]), Archive.registered).
Proof.
  apply (submitStar_registers_star (ext := Archive.externals)
           1790000100123 1790000100456 "addr" Demo.challenge "ok" "star"
           Archive.fresh Archive.registered Demo.star_block).
  - reflexivity.
  - reflexivity.
  - reflexivity.
Defined.

Lemma issued_challenge_round_trip_witness :
  embedded_timestamp Demo.challenge = Some (1790000000123 / 1000)
  /\ elapsed 1790000400123 Demo.challenge
     = Some (1790000400123 / 1000 - 1790000000123 / 1000)
  /\ JS.gt (elapsed 1790000400123 Demo.challenge) 300
     = (300 <? 1790000400123 / 1000 - 1790000000123 / 1000).
Proof.
  apply (issued_challenge_round_trip 1790000000123 1790000400123 "addr"
           Demo.fresh Demo.challenge).
  - lia.
  - lia.
  - reflexivity.
  - reflexivity.
Defined.

Lemma validateChain_reports_broken_link_witness :
  exists h,
    BlockClass.hash Demo.star_block = Some h
    /\ fst (validateChain (ext := Demo.externals)
              (mkBlockchain
                 (<[1%nat := BlockClass.set_previousBlockHash
                                Demo.star_block None]>
                    (chain Demo.registered))
                 (height Demo.registered)))
       = Resolve
           ["Block " +:+ h +:+ " was tampered.";
            "Previous block hash doesnt match with " +:+ h
              +:+ " block's previous hash property."].
Proof.
  apply (validateChain_reports_broken_link (ext := Demo.externals)
           Demo.registered 1 Demo.star_block None).
  - reflexivity.
  - reflexivity.
  - discriminate.
  - vm_compute. discriminate.
Defined.

(** ** Appending to a sound chain *)

Section SoundnessProofs.
Context `{ext : Externals}.

(** X17. Appending keeps a sound ledger sound: if the validator finds no
    fault and the counter equals the chain length, then after [_addBlock]
    has succeeded on a freshly constructed block the validator still finds
    no fault and the counter still equals the chain length. *)
Theorem addBlock_preserves_validity (now : Z) (data : BData Star)
    (self self' : Blockchain) (blk : Block) :
  fst (validateChain self) = Resolve [] ->
  height_is_length self ->
  _addBlock now (BlockClass.new data) self = (Resolve blk, self') ->
  fst (validateChain self') = Resolve [] /\ height_is_length self'.
Proof.
  rewrite !validateChain_run. simpl. rewrite !validateChain_loop_report. simpl.
  intros [= Hclean] Hlen Hrun. unfold height_is_length in *.
  pose proof (_addBlock_seals now (BlockClass.new data) blk self self'
                eq_refl Hrun) as Hvalid.
  destruct (_addBlock_inv _ _ _ _ _ Hrun)
    as [(e & Hres & _)|(b & Hres & -> & _ & _ & _ & _ & _ & Hprev)];
    [discriminate Hres|].
  injection Hres as <-. simpl. split; [|reflexivity].
  destruct Hprev as (prev & Hat & _ & Hhash); [lia|].
  rewrite Hlen in Hat. apply at_index_last in Hat.
  rewrite full_report_app, Hclean, Hat. simpl. rewrite app_nil_r.
  f_equal. apply block_violations_nil. split; assumption.
Qed.

End SoundnessProofs.

Lemma addBlock_preserves_validity_witness :
  fst (validateChain (ext := Demo.externals) Demo.registered) = Resolve []
  /\ height_is_length Demo.registered.
Proof.
  apply (addBlock_preserves_validity (ext := Demo.externals) 1790000100456
           (StarData "star" "addr") Demo.fresh Demo.registered
           Demo.star_block); reflexivity.
Defined.
